(** * libutap: the intermediate representation of [utap/document.h] and the
    diagnostic factories of [typeexception.cpp].

    [std::string] is a Rocq [string], [std::vector], [std::deque] and
    [std::list] are lists (a [push_back] is an append at the end), a nullable
    raw pointer is an [option], [std::map] is a [gmap], and [int] is [Z]. *)

From stdpp Require Import gmap strings list fin_maps.
From Stdlib Require Import ZArith Ascii.

Set Warnings "-register-all".

Local Open Scope Z_scope.
Local Open Scope nat_scope.

(** ** Strings *)

(** [std::string::substr(pos, n)]: the characters [pos, pos + min(n, size - pos))];
    [std::out_of_range] (here [None]) when [pos > size].  The count is a
    [size_t], kept in [N]. *)
Definition std_substr (s : string) (pos : nat) (n : N) : option string :=
  if decide (String.length s < pos) then None
  else Some (String.substring pos (N.to_nat (N.min n (N.of_nat (String.length s - pos)))) s).

(** [s.size() - 1] on [size_t]: the subtraction wraps around at zero. *)
Definition size_minus_one (size : nat) : N :=
  match size with
  | O => (2 ^ 64 - 1)%N
  | S n => N.of_nat n
  end.

(** ** The diagnostic factories of typeexception.cpp

    [TypeException] (declared in utap/builder.h) is a [std::runtime_error];
    what it carries is the message it was built from. *)
Record TypeException : Type := mkTypeException { what : string }.

Definition UnknownIdentifierError (name : string) : TypeException :=
  mkTypeException ("$Unknown_identifier: %1%" +:+ name).

Definition HasNoMemberError (name : string) : TypeException :=
  mkTypeException ("$has_no_member_named %1%" +:+ name).

Definition IsNotAStructError (name : string) : TypeException :=
  mkTypeException ("%1% $is_not_a_structure" +:+ name).

Definition DuplicateDefinitionError (name : string) : TypeException :=
  mkTypeException ("$Duplicate_definition_of %1%" +:+ name).

Definition InvalidTypeError (name : string) : TypeException :=
  mkTypeException ("$Invalid_type %1%" +:+ name).

Definition NoSuchProcessError (name : string) : TypeException :=
  mkTypeException ("$No_such_process: %1%" +:+ name).

Definition NotATemplateError (name : string) : TypeException :=
  mkTypeException ("$Not_a_template: %1%" +:+ name).

Definition NotAProcessError (name : string) : TypeException :=
  mkTypeException ("%1% $is_not_a_process" +:+ name).

Definition StrategyNotDeclaredError (name : string) : TypeException :=
  mkTypeException ("$strategy_not_declared: %1%" +:+ name).

Definition UnknownDynamicTemplateError (name : string) : TypeException :=
  mkTypeException ("Unknown dynamic template %1%" +:+ name).

Definition ShadowsAVariableWarning (name : string) : TypeException :=
  mkTypeException ("%1% $shadows_a_variable" +:+ name).

Definition CouldNotLoadLibraryError (name : string) : TypeException :=
  mkTypeException ("$Could_not_load_library_named %1%" +:+ name).

Definition CouldNotLoadFunctionError (name : string) : TypeException :=
  mkTypeException ("$Could_not_load_function_named %1%" +:+ name).

(** The thirteen factories of the file, in the order they are defined. *)
Definition factories : list (string → TypeException) :=
  [ UnknownIdentifierError; HasNoMemberError; IsNotAStructError;
    DuplicateDefinitionError; InvalidTypeError; NoSuchProcessError;
    NotATemplateError; NotAProcessError; StrategyNotDeclaredError;
    UnknownDynamicTemplateError; ShadowsAVariableWarning;
    CouldNotLoadLibraryError; CouldNotLoadFunctionError ].

(** Those whose text opens with the [$] key. *)
Definition key_first_factories : list (string → TypeException) :=
  [ UnknownIdentifierError; HasNoMemberError; DuplicateDefinitionError;
    InvalidTypeError; NoSuchProcessError; NotATemplateError;
    StrategyNotDeclaredError; CouldNotLoadLibraryError;
    CouldNotLoadFunctionError ].

(** Those whose text opens with the positional parameter and has the key
    after it. *)
Definition parameter_first_factories : list (string → TypeException) :=
  [ IsNotAStructError; NotAProcessError; ShadowsAVariableWarning ].

(** Those whose text closes with the positional parameter. *)
Definition parameter_last_factories : list (string → TypeException) :=
  [ UnknownIdentifierError; HasNoMemberError; DuplicateDefinitionError;
    InvalidTypeError; NoSuchProcessError; NotATemplateError;
    StrategyNotDeclaredError; UnknownDynamicTemplateError;
    CouldNotLoadLibraryError; CouldNotLoadFunctionError ].

(** [begins_with p s]: the string [s] starts with the text [p]. *)
Definition begins_with (p s : string) : Prop := String.prefix p s = true.

(** [occurs_in p s]: the text [p] occurs somewhere in [s]. *)
Definition occurs_in (p s : string) : Prop :=
  ∃ front back : string, s = front +:+ p +:+ back.

(** [ends_with_then p name s]: [s] is some text, then [p], then [name] and
    nothing more. *)
Definition ends_with_then (p name s : string) : Prop :=
  ∃ front : string, s = front +:+ p +:+ name.

(** ** The string table of [Document] (document.h, lines 614-625) *)

(** [std::find(begin, end, s)]: the position of the first element equal to
    [s], [None] standing for the [end] iterator. *)
Definition std_find (s : string) (strings : list string) : option nat :=
  fst <$> list_find (λ x, x = s) strings.

(** [const std::vector<std::string>& get_strings() const] *)
Definition get_strings (strings : list string) : list string := strings.

(** [void add_string(const std::string&)]: an unconditional [push_back]. *)
Definition add_string (s : string) (strings : list string) : list string :=
  strings ++ [s].

(** [size_t add_string_if_new(const std::string&)]: the table after the call
    and the returned index. *)
Definition add_string_if_new (s : string) (strings : list string)
  : list string * nat :=
  match std_find s strings with
  | None =>
      let strings' := strings ++ [s] in
      (strings', length strings' - 1)
  | Some it => (strings, it)
  end.

(** The operations that write to the table. *)
Inductive string_op : Type :=
| AddString (s : string)
| AddStringIfNew (s : string).

Definition run_string_op (strings : list string) (op : string_op) : list string :=
  match op with
  | AddString s => add_string s strings
  | AddStringIfNew s => (add_string_if_new s strings).1
  end.

Definition run_string_ops (ops : list string_op) (strings : list string)
  : list string :=
  foldl run_string_op strings ops.

Definition is_if_new (op : string_op) : bool :=
  match op with
  | AddStringIfNew _ => true
  | AddString _ => false
  end.

(** The text that an operation carries. *)
Definition op_string (op : string_op) : string :=
  match op with
  | AddString s => s
  | AddStringIfNew s => s
  end.

(** The strings of a list in the order of their first occurrence, each one
    once. *)
Definition first_occurrences (ss : list string) : list string :=
  reverse (remove_dups (reverse ss)).

(** A [size_t] value converted to [int]: reduced modulo 2^32 into the range
    of a 32-bit two's complement integer. *)
Definition int_of_size_t (z : Z) : Z :=
  let r := (z mod 2 ^ 32)%Z in
  if (r <? 2 ^ 31)%Z then r else (r - 2 ^ 32)%Z.

(** The position of a factory in [factories] and the name it was given, read
    back from a message. *)
Definition made_by (i : nat) (name msg : string) : Prop :=
  ∃ f, factories !! i = Some f ∧ what (f name) = msg.

(** ** Storage of a [std::vector]

    [strings], [queries_t] and [dynamicEvals] are [std::vector]s: the
    elements lie side by side in one buffer, element [i] at [data() + i].
    [push_back] writes into the buffer while [size() < capacity()];
    otherwise it allocates a larger buffer while the old one is still in
    use, moves the elements over and releases the old one.  How much larger
    the buffer gets ([grow]) and where it lies ([alloc], given the old
    buffer and the new capacity) are the library's and the allocator's
    choice. *)
Record vector_t (A : Type) : Type := mkVector {
  vector_data : nat;
  vector_capacity : nat;
  vector_elems : list A
}.
Arguments mkVector {A} _ _ _.
Arguments vector_data {A} _.
Arguments vector_capacity {A} _.
Arguments vector_elems {A} _.

(** The address of element [i], in units of one element. *)
Definition vector_address {A : Type} (v : vector_t A) (i : nat) : nat :=
  vector_data v + i.


Definition vector_push_back {A : Type} (grow : nat → nat)
  (alloc : nat → nat → nat → nat) (x : A) (v : vector_t A) : vector_t A :=
  if decide (length (vector_elems v) < vector_capacity v)
  then mkVector (vector_data v) (vector_capacity v) (vector_elems v ++ [x])
  else
    let n := grow (vector_capacity v) in
    mkVector (alloc (vector_data v) (vector_capacity v) n) n
      (vector_elems v ++ [x]).



(** The capacity doubles, as in libstdc++ and libc++. *)
Definition doubling (c : nat) : nat := Nat.max 1 (2 * c).

(** The new buffer lies right behind the old one. *)
Definition alloc_behind (b c n : nat) : nat := b + c.

(** ** Supported analysis methods (document.h, lines 39-45) *)

Record SupportedMethods : Type := mkSupportedMethods {
  symbolic : bool;
  stochastic : bool;
  concrete : bool
}.

(** [SupportedMethods{}]: the default member initialisers. *)
Definition SupportedMethods_default : SupportedMethods :=
  {| symbolic := true; stochastic := true; concrete := true |}.

(** ** The intermediate representation (document.h)

    [symbol_t] and [expression_t] are declared in utap/symbols.h and
    utap/expression.h.  A symbol is a shared node compared by identity and
    used as a [std::map] key; an expression has a default constructor (the
    empty expression). *)
Section IR.

Context {symbol_t : Type} `{Countable symbol_t}.
Context {expression_t : Type}.

Variable symbol_getName : symbol_t → string.
Variable expression_empty : expression_t.

(** Modelled from the spec: [frame_t] of utap/symbols.h, which the header
    includes.  "An ordered, append-only set of symbols with optional parent
    frame(s) for lexical nesting.  Resolution searches the chain.  A frame
    supports: add, lookup-local, lookup-recursive, size, iterate." *)
Inductive frame_t : Type := mkFrame {
  frame_symbols : list symbol_t;
  frame_parent : option frame_t
}.

(** Modelled from the spec: a frame without symbols and without parent, as a
    default-constructed member of the absent [frame_t] stands in the structs
    below. *)
Definition frame_empty : frame_t := mkFrame [] None.

(** Modelled from the spec: the "size" of a frame, the number of its own
    symbols. *)
Definition frame_getSize (f : frame_t) : nat := length (frame_symbols f).

(** Modelled from the spec: lookup-local, by name. *)
Definition frame_lookup_local (name : string) (f : frame_t) : option symbol_t :=
  snd <$> list_find (λ s, symbol_getName s = name) (frame_symbols f).

(** Modelled from the spec: "[resolve(name)] searches local first, then
    parents; returns the first match". *)
Fixpoint frame_resolve (name : string) (f : frame_t) : option symbol_t :=
  match f with
  | mkFrame symbols parent =>
      match snd <$> list_find (λ s, symbol_getName s = name) symbols with
      | Some s => Some s
      | None =>
          match parent with
          | Some p => frame_resolve name p
          | None => None
          end
      end
  end.

(** Modelled from the spec: "[add(symbol)] fails with [DuplicateDefinition]
    if the name exists locally"; "shadowing across frames is permitted but
    produces a warning".  The result is the error, or the extended frame
    with the warnings the call emitted. *)
Definition frame_add (sym : symbol_t) (f : frame_t)
  : TypeException + frame_t * list TypeException :=
  let name := symbol_getName sym in
  match frame_lookup_local name f with
  | Some _ => inl (DuplicateDefinitionError name)
  | None =>
      let f' := mkFrame (frame_symbols f ++ [sym]) (frame_parent f) in
      match frame_parent f ≫= frame_resolve name with
      | Some _ => inr (f', [ShadowsAVariableWarning name])
      | None => inr (f', [])
      end
  end.

(** A raw pointer: [None] is [nullptr], [Some a] the object at handle [a]
    (a position in the owning deque, or an address of the free store). *)
Definition ptr : Type := option nat.
Definition nullptr : ptr := None.

Record state_t : Type := mkState {
  state_uid : symbol_t;
  state_name : expression_t;
  state_invariant : expression_t;
  state_exponentialRate : expression_t;
  state_costRate : expression_t;
  state_locNr : Z
}.

Record branchpoint_t : Type := mkBranchpoint {
  branchpoint_uid : symbol_t;
  branchpoint_bpNr : Z
}.

Record edge_t : Type := mkEdge {
  edge_nr : Z;
  edge_control : bool;
  edge_actname : string;
  edge_src : ptr;
  edge_srcb : ptr;
  edge_dst : ptr;
  edge_dstb : ptr;
  edge_select : frame_t;
  edge_guard : expression_t;
  edge_assign : expression_t;
  edge_sync : expression_t;
  edge_prob : expression_t;
  edge_selectValues : list Z
}.

Record message_t : Type := mkMessage {
  message_nr : Z;
  message_location : Z;
  message_src : ptr;
  message_dst : ptr;
  message_label : expression_t;
  message_isInPrechart : bool
}.

Record condition_t : Type := mkCondition {
  condition_nr : Z;
  condition_location : Z;
  condition_anchors : list ptr;
  condition_label : expression_t;
  condition_isInPrechart : bool;
  condition_isHot : bool
}.

Record update_t : Type := mkUpdate {
  update_nr : Z;
  update_location : Z;
  update_anchor : ptr;
  update_label : expression_t;
  update_isInPrechart : bool
}.

(** [message_t() = default] and its siblings: the default member
    initialisers ([{}] on a [bool] is [false]). *)
Definition message_default : message_t :=
  mkMessage (-1) (-1) nullptr nullptr expression_empty false.
Definition condition_default : condition_t :=
  mkCondition (-1) (-1) [] expression_empty false false.
Definition update_default : update_t :=
  mkUpdate (-1) (-1) nullptr expression_empty false.

Definition message_get_nr (m : message_t) : Z := message_nr m.
Definition condition_get_nr (c : condition_t) : Z := condition_nr c.
Definition update_get_nr (u : update_t) : Z := update_nr u.

(** The free store that [new] and [delete] work on, one map per type. *)
Record heap_t : Type := mkHeap {
  heap_messages : gmap nat message_t;
  heap_conditions : gmap nat condition_t;
  heap_updates : gmap nat update_t
}.

Definition heap_empty : heap_t := mkHeap ∅ ∅ ∅.

(** [new T()]: a fresh address now holding the default-constructed object. *)
Definition new_message (h : heap_t) : nat * heap_t :=
  let a := fresh (dom (heap_messages h)) in
  (a, mkHeap (<[a := message_default]> (heap_messages h))
             (heap_conditions h) (heap_updates h)).
Definition new_condition (h : heap_t) : nat * heap_t :=
  let a := fresh (dom (heap_conditions h)) in
  (a, mkHeap (heap_messages h)
             (<[a := condition_default]> (heap_conditions h)) (heap_updates h)).
Definition new_update (h : heap_t) : nat * heap_t :=
  let a := fresh (dom (heap_updates h)) in
  (a, mkHeap (heap_messages h) (heap_conditions h)
             (<[a := update_default]> (heap_updates h))).

(** [delete p]: nothing on [nullptr]. *)
Definition delete_message (p : ptr) (h : heap_t) : heap_t :=
  match p with
  | Some a => mkHeap (delete a (heap_messages h)) (heap_conditions h) (heap_updates h)
  | None => h
  end.
Definition delete_condition (p : ptr) (h : heap_t) : heap_t :=
  match p with
  | Some a => mkHeap (heap_messages h) (delete a (heap_conditions h)) (heap_updates h)
  | None => h
  end.
Definition delete_update (p : ptr) (h : heap_t) : heap_t :=
  match p with
  | Some a => mkHeap (heap_messages h) (heap_conditions h) (delete a (heap_updates h))
  | None => h
  end.

Record simregion_t : Type := mkSimregion {
  simregion_nr : Z;
  simregion_message : ptr;
  simregion_condition : ptr;
  simregion_update : ptr
}.

(** [simregion_t()]: [nr{}] is zero, then the three allocations of the
    constructor body in their order. *)
Definition simregion_ctor (h : heap_t) : simregion_t * heap_t :=
  let '(message, h1) := new_message h in
  let '(condition, h2) := new_condition h1 in
  let '(update, h3) := new_update h2 in
  (mkSimregion 0 (Some message) (Some condition) (Some update), h3).

(** [~simregion_t()] *)
Definition simregion_dtor (s : simregion_t) (h : heap_t) : heap_t :=
  delete_update (simregion_update s)
    (delete_condition (simregion_condition s)
       (delete_message (simregion_message s) h)).

Record cut_t : Type := mkCut {
  cut_nr : Z;
  cut_simregions : list simregion_t
}.

(** [explicit cut_t(int number)] *)
Definition cut_ctor (number : Z) : cut_t := mkCut number [].

(** [void add(const simregion_t& s)] *)
Definition cut_add (s : simregion_t) (c : cut_t) : cut_t :=
  mkCut (cut_nr c) (cut_simregions c ++ [s]).

(** [simregion_t::toString] is only declared in the header. *)
Variable simregion_toString : simregion_t → string.

(** [std::string cut_t::toString() const]; [None] is the [std::out_of_range]
    of [substr]. *)
Definition cut_toString (c : cut_t) : option string :=
  let s := "CUT(" in
  let s := foldl (λ s r, s +:+ (simregion_toString r +:+ " ")) s (cut_simregions c) in
  s ← std_substr s 0 (size_minus_one (String.length s));
  Some (s +:+ ")").

(** [instance_t] (document.h, lines 331-344).  [templ] is the handle of the
    template the instance comes from. *)
Record instance_t : Type := mkInstance {
  instance_uid : symbol_t;
  parameters : frame_t;
  mapping : gmap symbol_t expression_t;
  arguments : nat;
  unbound : nat;
  templ : ptr;
  restricted : gset symbol_t
}.

(** [struct instanceLine_t : public instance_t] *)
Record instanceLine_t : Type := mkInstanceLine {
  instanceLine_base : instance_t;
  instanceNr : Z
}.

(** [struct template_t : public instance_t, declarations_t].  The members of
    the [declarations_t] base (frame, variables, functions, progress measures,
    IO declarations, Gantt chart) play no part below and are left out. *)
Record template_t : Type := mkTemplate {
  template_base : instance_t;
  template_init : symbol_t;
  templateset : frame_t;
  states : list state_t;
  branchpoints : list branchpoint_t;
  edges : list edge_t;
  dynamicEvals : list expression_t;
  isTA : bool;
  template_instances : list instanceLine_t;
  messages : list message_t;
  updates : list update_t;
  conditions : list condition_t;
  template_type : string;
  template_mode : string;
  hasPrechart : bool;
  dynamic : bool;
  dynindex : Z;
  isDefined : bool
}.

Definition with_states (f : list state_t → list state_t) (t : template_t) : template_t :=
  let '(mkTemplate b i ts st bp ed de ta il ms up co ty mo hp dy dx df) := t in
  mkTemplate b i ts (f st) bp ed de ta il ms up co ty mo hp dy dx df.

Definition with_branchpoints (f : list branchpoint_t → list branchpoint_t)
  (t : template_t) : template_t :=
  let '(mkTemplate b i ts st bp ed de ta il ms up co ty mo hp dy dx df) := t in
  mkTemplate b i ts st (f bp) ed de ta il ms up co ty mo hp dy dx df.

Definition with_edges (f : list edge_t → list edge_t) (t : template_t) : template_t :=
  let '(mkTemplate b i ts st bp ed de ta il ms up co ty mo hp dy dx df) := t in
  mkTemplate b i ts st bp (f ed) de ta il ms up co ty mo hp dy dx df.

Definition with_dynamicEvals (f : list expression_t → list expression_t)
  (t : template_t) : template_t :=
  let '(mkTemplate b i ts st bp ed de ta il ms up co ty mo hp dy dx df) := t in
  mkTemplate b i ts st bp ed (f de) ta il ms up co ty mo hp dy dx df.

Definition with_instanceLines (f : list instanceLine_t → list instanceLine_t)
  (t : template_t) : template_t :=
  let '(mkTemplate b i ts st bp ed de ta il ms up co ty mo hp dy dx df) := t in
  mkTemplate b i ts st bp ed de ta (f il) ms up co ty mo hp dy dx df.

Definition with_messages (f : list message_t → list message_t)
  (t : template_t) : template_t :=
  let '(mkTemplate b i ts st bp ed de ta il ms up co ty mo hp dy dx df) := t in
  mkTemplate b i ts st bp ed de ta il (f ms) up co ty mo hp dy dx df.

Definition with_updates (f : list update_t → list update_t)
  (t : template_t) : template_t :=
  let '(mkTemplate b i ts st bp ed de ta il ms up co ty mo hp dy dx df) := t in
  mkTemplate b i ts st bp ed de ta il ms (f up) co ty mo hp dy dx df.

Definition with_conditions (f : list condition_t → list condition_t)
  (t : template_t) : template_t :=
  let '(mkTemplate b i ts st bp ed de ta il ms up co ty mo hp dy dx df) := t in
  mkTemplate b i ts st bp ed de ta il ms up (f co) ty mo hp dy dx df.

(** [int addDynamicEval(expression_t t)]: the template after the call and the
    returned [int]. *)
Definition addDynamicEval (e : expression_t) (t : template_t) : template_t * Z :=
  let t' := with_dynamicEvals (λ l, l ++ [e]) t in
  (t', (Z.of_nat (length (dynamicEvals t')) - 1)%Z).

Definition getDynamicEval (t : template_t) : list expression_t := dynamicEvals t.

(** What a symbol handed to [addEdge] stands for: [symbol_isLocation] is the
    test that the symbol's type is a location, [symbol_getData] the handle of
    the domain object behind the symbol ("s.uid.getData() is a pointer to s"). *)
Variable symbol_isLocation : symbol_t → bool.
Variable symbol_getData : symbol_t → nat.

(** Modelled from the spec: the body of [template_t::addEdge], which the
    header only declares.  "Edge.  Numbered, controllable flag, source and
    destination (each exactly one of location/branchpoint), select frame,
    guard, assignment, synchronization, probability"; the header adds that
    "the unused of these pointers should be set to nullptr".  The edge is
    numbered by its place in the deque and recorded at its end. *)
Definition addEdge (src dst : symbol_t) (control : bool) (actname : string)
  (t : template_t) : template_t :=
  let e :=
    {| edge_nr := Z.of_nat (length (edges t));
       edge_control := control;
       edge_actname := actname;
       edge_src := if symbol_isLocation src then Some (symbol_getData src) else nullptr;
       edge_srcb := if symbol_isLocation src then nullptr else Some (symbol_getData src);
       edge_dst := if symbol_isLocation dst then Some (symbol_getData dst) else nullptr;
       edge_dstb := if symbol_isLocation dst then nullptr else Some (symbol_getData dst);
       edge_select := frame_empty;
       edge_guard := expression_empty;
       edge_assign := expression_empty;
       edge_sync := expression_empty;
       edge_prob := expression_empty;
       edge_selectValues := [] |} in
  with_edges (λ l, l ++ [e]) t.

(** The other [add...] members of [template_t] are only declared in the
    header.  The spec says of them that "each call records the element in the
    appropriate document container": the element that the call builds from
    its arguments is appended to its deque. *)

(** Modelled from the spec: [template_t::addLocation], recording the location
    [s] it builds. *)
Definition addLocation (s : state_t) (t : template_t) : template_t :=
  with_states (λ l, l ++ [s]) t.

(** Modelled from the spec: [template_t::addBranchpoint], recording the
    branchpoint [b] it builds. *)
Definition addBranchpoint (b : branchpoint_t) (t : template_t) : template_t :=
  with_branchpoints (λ l, l ++ [b]) t.

(** Modelled from the spec: [template_t::addInstanceLine], recording the
    instance line [i] it builds. *)
Definition addInstanceLine (i : instanceLine_t) (t : template_t) : template_t :=
  with_instanceLines (λ l, l ++ [i]) t.

(** Modelled from the spec: [template_t::addMessage], recording the message
    [m] it builds. *)
Definition addMessage (m : message_t) (t : template_t) : template_t :=
  with_messages (λ l, l ++ [m]) t.

(** Modelled from the spec: [template_t::addCondition], recording the
    condition [c] it builds. *)
Definition addCondition (c : condition_t) (t : template_t) : template_t :=
  with_conditions (λ l, l ++ [c]) t.

(** Modelled from the spec: [template_t::addUpdate], recording the update [u]
    it builds. *)
Definition addUpdate (u : update_t) (t : template_t) : template_t :=
  with_updates (λ l, l ++ [u]) t.

(** The fields of an edge that the Builder fills in after [addEdge]. *)
Definition set_edge_guard (g : expression_t) (e : edge_t) : edge_t :=
  let '(mkEdge nr co an sr sb ds db se gu asg sy pr sv) := e in
  mkEdge nr co an sr sb ds db se g asg sy pr sv.
Definition set_edge_sync (y : expression_t) (e : edge_t) : edge_t :=
  let '(mkEdge nr co an sr sb ds db se gu asg sy pr sv) := e in
  mkEdge nr co an sr sb ds db se gu asg y pr sv.
Definition set_edge_assign (a : expression_t) (e : edge_t) : edge_t :=
  let '(mkEdge nr co an sr sb ds db se gu asg sy pr sv) := e in
  mkEdge nr co an sr sb ds db se gu a sy pr sv.

(** A write into [edges.back()], the edge that was added last; there is
    nothing to write into while the deque is empty. *)
Definition with_last_edge (f : edge_t → edge_t) (t : template_t) : template_t :=
  with_edges (λ l, alter f (length l - 1) l) t.

(** Modelled from the spec: the Builder call [addGuard], which is not under
    src/.  The Builder contract "is a flat sequence of declarative calls:
    ... [addEdge], [addSync], [addGuard], [addAssign] ...  Each call records
    the element in the appropriate document container": the guard is
    recorded in the edge that the preceding [addEdge] stored. *)
Definition addGuard (g : expression_t) (t : template_t) : template_t :=
  with_last_edge (set_edge_guard g) t.

(** Modelled from the spec: the Builder call [addSync], recording the
    synchronisation in the edge that the preceding [addEdge] stored. *)
Definition addSync (y : expression_t) (t : template_t) : template_t :=
  with_last_edge (set_edge_sync y) t.

(** Modelled from the spec: the Builder call [addAssign], recording the
    assignment in the edge that the preceding [addEdge] stored. *)
Definition addAssign (a : expression_t) (t : template_t) : template_t :=
  with_last_edge (set_edge_assign a) t.

(** The calls that write to a template. *)
Inductive template_op : Type :=
| op_addLocation (s : state_t)
| op_addBranchpoint (b : branchpoint_t)
| op_addEdge (src dst : symbol_t) (control : bool) (actname : string)
| op_addGuard (g : expression_t)
| op_addSync (y : expression_t)
| op_addAssign (a : expression_t)
| op_addDynamicEval (e : expression_t)
| op_addInstanceLine (i : instanceLine_t)
| op_addMessage (m : message_t)
| op_addCondition (c : condition_t)
| op_addUpdate (u : update_t).

Definition run_template_op (o : template_op) (t : template_t) : template_t :=
  match o with
  | op_addLocation s => addLocation s t
  | op_addBranchpoint b => addBranchpoint b t
  | op_addEdge src dst control actname => addEdge src dst control actname t
  | op_addGuard g => addGuard g t
  | op_addSync y => addSync y t
  | op_addAssign a => addAssign a t
  | op_addDynamicEval e => (addDynamicEval e t).1
  | op_addInstanceLine i => addInstanceLine i t
  | op_addMessage m => addMessage m t
  | op_addCondition c => addCondition c t
  | op_addUpdate u => addUpdate u t
  end.

(** *** Instantiation *)

(** Modelled from the spec: a template seen as an instance.  "Every template
    is also a partial instance of itself"; "for templates, [arguments] is
    obviously 0"; nothing is bound, so every parameter is unbound and the
    mapping is empty. *)
Definition template_instance (uid : symbol_t) (params : frame_t) (self : ptr)
  : instance_t :=
  {| instance_uid := uid;
     parameters := params;
     mapping := ∅;
     arguments := 0;
     unbound := frame_getSize params;
     templ := self;
     restricted := ∅ |}.

(** Modelled from the spec: the body of [Document::addInstance], which the
    header only declares, building the instance [uid] with the parameters
    [params] of its own from [inst] and [arguments].  "Copy T's parameter
    frame into I; arguments bind the leading parameters.  For each bound
    parameter p_i ... record I.mapping[p_i]"; "all parameters and arguments are
    merged into this one struct"; "unbound symbols are listed first"; "the
    first [arguments] bound symbols of [parameters] are the corresponding
    parameters". *)
Definition addInstance (uid : symbol_t) (inst : instance_t) (params : frame_t)
  (args : list expression_t) : instance_t :=
  {| instance_uid := uid;
     parameters :=
       mkFrame (frame_symbols params ++ frame_symbols (parameters inst))
         (frame_parent params);
     mapping :=
       list_to_map (zip (frame_symbols (parameters inst)) args) ∪ mapping inst;
     arguments := length args;
     unbound := frame_getSize params;
     templ := templ inst;
     restricted := restricted inst |}.

(** The parameters of an instance split at [unbound]. *)
Definition unbound_parameters (i : instance_t) : list symbol_t :=
  take (unbound i) (frame_symbols (parameters i)).
Definition bound_parameters (i : instance_t) : list symbol_t :=
  drop (unbound i) (frame_symbols (parameters i)).

(** The instance invariant: the frame holds the unbound parameters and then
    the bound ones, as many as the mapping has entries; a parameter is among
    the first [unbound] exactly when the mapping does not bind it; the keys of
    the mapping are the parameters from position [unbound] on. *)
Definition instance_invariant (i : instance_t) : Prop :=
  frame_getSize (parameters i) = unbound i + size (mapping i)
  ∧ (∀ s, s ∈ unbound_parameters i
          ↔ s ∈ frame_symbols (parameters i) ∧ mapping i !! s = None)
  ∧ dom (mapping i) = list_to_set (bound_parameters i).

(** The invariant together with what carries it through an instantiation:
    no symbol is listed twice. *)
Definition instance_wf (i : instance_t) : Prop :=
  instance_invariant i ∧ NoDup (frame_symbols (parameters i)).

(** The instances the instantiation engine produces: a template, or the
    instantiation of such an instance with arguments "matching T's parameters
    in order" and parameters of its own that are new symbols. *)
Inductive instantiated : instance_t → Prop :=
| instantiated_template uid params self :
    NoDup (frame_symbols params) →
    instantiated (template_instance uid params self)
| instantiated_instance uid inst params args :
    instantiated inst →
    length args = unbound inst →
    NoDup (frame_symbols params) →
    (∀ s, s ∈ frame_symbols params → s ∉ frame_symbols (parameters inst)) →
    instantiated (addInstance uid inst params args).

(** *** Edges *)

(** Exactly one pointer of the pair is set, the other one is [nullptr]. *)
Definition exactly_one (p q : ptr) : Prop :=
  (is_Some p ∧ q = nullptr) ∨ (p = nullptr ∧ is_Some q).

Definition edge_invariant (e : edge_t) : Prop :=
  exactly_one (edge_src e) (edge_srcb e) ∧ exactly_one (edge_dst e) (edge_dstb e).

(** A template with no edge yet. *)
Definition no_edges (t : template_t) : Prop := edges t = [].

(** *** Queries *)

Inductive expectation_type : Type := Symbolic | Probability | NumericValue | _ErrorValue.

Inductive query_status_t : Type := True_ | False_ | MaybeTrue | MaybeFalse | Unknown.

Record option_t : Type := mkOption { option_name : string; option_value : string }.

Inductive resource_type : Type := Time | Memory.

Record resource_t : Type := mkResource {
  resource_name : string;
  resource_value : string;
  resource_unit : option string
}.

Record expectation_t : Type := mkExpectation {
  expectation_value_type : expectation_type;
  expectation_status : query_status_t;
  expectation_value : string;
  expectation_resources : list resource_t
}.

Record query_t : Type := mkQuery {
  query_formula : string;
  query_comment : string;
  query_options : list option_t;
  query_expectation : expectation_t;
  query_location : string
}.

(** *** The document *)

(** [class Document]: the flags and the counter that the inline members of
    the header touch, and the containers of templates, instances, processes,
    queries and strings. *)
Record Document : Type := mkDocument {
  hasUrgentTrans : bool;
  hasGuardOnRecvBroadcast : bool;
  syncUsed : Z;
  templates : list template_t;
  dynamicTemplates : list template_t;
  document_instances : list instance_t;
  lscInstances : list instance_t;
  processes : list instance_t;
  queries : list query_t;
  strings : list string;
  supportedMethods : SupportedMethods
}.

(** A newly constructed document.  The body of [Document::Document()] is not
    in the header: the scalar members without a default member initialiser
    are arguments; the containers are default-constructed, hence empty, and
    [supportedMethods{}] is its default member initialiser. *)
Definition Document_ctor (urgent recvBroadcast : bool) (sync : Z) : Document :=
  {| hasUrgentTrans := urgent;
     hasGuardOnRecvBroadcast := recvBroadcast;
     syncUsed := sync;
     templates := [];
     dynamicTemplates := [];
     document_instances := [];
     lscInstances := [];
     processes := [];
     queries := [];
     strings := [];
     supportedMethods := SupportedMethods_default |}.

Definition with_templates (f : list template_t → list template_t) (d : Document)
  : Document :=
  let '(mkDocument ur rb sy ts dt ins lsc ps qs ss sm) := d in
  mkDocument ur rb sy (f ts) dt ins lsc ps qs ss sm.

Definition with_dynamicTemplates (f : list template_t → list template_t)
  (d : Document) : Document :=
  let '(mkDocument ur rb sy ts dt ins lsc ps qs ss sm) := d in
  mkDocument ur rb sy ts (f dt) ins lsc ps qs ss sm.

Definition with_instances (f : list instance_t → list instance_t) (d : Document)
  : Document :=
  let '(mkDocument ur rb sy ts dt ins lsc ps qs ss sm) := d in
  mkDocument ur rb sy ts dt (f ins) lsc ps qs ss sm.

Definition with_lscInstances (f : list instance_t → list instance_t)
  (d : Document) : Document :=
  let '(mkDocument ur rb sy ts dt ins lsc ps qs ss sm) := d in
  mkDocument ur rb sy ts dt ins (f lsc) ps qs ss sm.

Definition with_processes (f : list instance_t → list instance_t) (d : Document)
  : Document :=
  let '(mkDocument ur rb sy ts dt ins lsc ps qs ss sm) := d in
  mkDocument ur rb sy ts dt ins lsc (f ps) qs ss sm.

Definition with_queries (f : list query_t → list query_t) (d : Document)
  : Document :=
  let '(mkDocument ur rb sy ts dt ins lsc ps qs ss sm) := d in
  mkDocument ur rb sy ts dt ins lsc ps (f qs) ss sm.

Definition with_strings (f : list string → list string) (d : Document)
  : Document :=
  let '(mkDocument ur rb sy ts dt ins lsc ps qs ss sm) := d in
  mkDocument ur rb sy ts dt ins lsc ps qs (f ss) sm.

(** The inline members of [Document] (document.h, lines 605-625). *)
Definition clockGuardRecvBroadcast (d : Document) : Document :=
  let '(mkDocument ur rb sy ts dt ins lsc ps qs ss sm) := d in
  mkDocument ur true sy ts dt ins lsc ps qs ss sm.
Definition hasClockGuardRecvBroadcast (d : Document) : bool :=
  hasGuardOnRecvBroadcast d.
Definition setSyncUsed (s : Z) (d : Document) : Document :=
  let '(mkDocument ur rb sy ts dt ins lsc ps qs ss sm) := d in
  mkDocument ur rb s ts dt ins lsc ps qs ss sm.
Definition getSyncUsed (d : Document) : Z := syncUsed d.
Definition setUrgentTransition (d : Document) : Document :=
  let '(mkDocument ur rb sy ts dt ins lsc ps qs ss sm) := d in
  mkDocument true rb sy ts dt ins lsc ps qs ss sm.
Definition hasUrgentTransition (d : Document) : bool := hasUrgentTrans d.
Definition hasDynamicTemplates (d : Document) : bool :=
  negb (bool_decide (length (dynamicTemplates d) = 0)).
Definition Document_get_strings (d : Document) : list string :=
  get_strings (strings d).
Definition Document_add_string (s : string) (d : Document) : Document :=
  with_strings (add_string s) d.
Definition Document_add_string_if_new (s : string) (d : Document)
  : Document * nat :=
  (with_strings (λ ss, (add_string_if_new s ss).1) d,
   (add_string_if_new s (strings d)).2).

(** The members of [Document] below are only declared in the header.  The
    spec says of them that "each call records the element in the appropriate
    document container". *)

(** Modelled from the spec: [Document::addTemplate], recording the template
    [t] it builds. *)
Definition Document_addTemplate (t : template_t) (d : Document) : Document :=
  with_templates (λ l, l ++ [t]) d.

(** Modelled from the spec: [Document::addDynamicTemplate], recording the
    template [t] it builds. *)
Definition Document_addDynamicTemplate (t : template_t) (d : Document) : Document :=
  with_dynamicTemplates (λ l, l ++ [t]) d.

(** Modelled from the spec: [Document::addInstance], recording the instance
    that the instantiation engine builds. *)
Definition Document_addInstance (uid : symbol_t) (inst : instance_t)
  (params : frame_t) (args : list expression_t) (d : Document) : Document :=
  with_instances (λ l, l ++ [addInstance uid inst params args]) d.

(** Modelled from the spec: [Document::addLscInstance], the same for the
    instances of an LSC. *)
Definition Document_addLscInstance (uid : symbol_t) (inst : instance_t)
  (params : frame_t) (args : list expression_t) (d : Document) : Document :=
  with_lscInstances (λ l, l ++ [addInstance uid inst params args]) d.

(** Modelled from the spec: [Document::addProcess], registering the instance
    as a process. *)
Definition Document_addProcess (inst : instance_t) (d : Document) : Document :=
  with_processes (λ l, l ++ [inst]) d.

(** Modelled from the spec: [Document::addQuery], which "creates a copy and
    moves it" into the queries. *)
Definition Document_addQuery (q : query_t) (d : Document) : Document :=
  with_queries (λ l, l ++ [q]) d.

(** Modelled from the spec: the deletion that [Document::removeProcess]
    performs: the first process with the symbol [uid] is taken out of the
    list. *)
Fixpoint remove_process (uid : symbol_t) (ps : list instance_t) : list instance_t :=
  match ps with
  | [] => []
  | p :: ps' =>
      if decide (instance_uid p = uid) then ps' else p :: remove_process uid ps'
  end.

(** Modelled from the spec: [Document::removeProcess], which the header only
    declares: "no deletions except [removeProcess] for LSC cleanup".  The
    process registered for the instance is found by its symbol. *)
Definition removeProcess (inst : instance_t) (d : Document) : Document :=
  with_processes (remove_process (instance_uid inst)) d.

(** The calls that write to a document; [op_on_template i o] is the call [o]
    on the template at position [i] of the list of templates, reached through
    the reference that [addTemplate] returned. *)
Inductive document_op : Type :=
| op_addTemplate (t : template_t)
| op_addDynamicTemplate (t : template_t)
| op_addInstance (uid : symbol_t) (inst : instance_t) (params : frame_t)
    (args : list expression_t)
| op_addLscInstance (uid : symbol_t) (inst : instance_t) (params : frame_t)
    (args : list expression_t)
| op_addProcess (inst : instance_t)
| op_removeProcess (inst : instance_t)
| op_addQuery (q : query_t)
| op_add_string (s : string)
| op_add_string_if_new (s : string)
| op_clockGuardRecvBroadcast
| op_setSyncUsed (s : Z)
| op_setUrgentTransition
| op_on_template (i : nat) (o : template_op)
| op_on_dynamicTemplate (i : nat) (o : template_op).

Definition run_document_op (d : Document) (o : document_op) : Document :=
  match o with
  | op_addTemplate t => Document_addTemplate t d
  | op_addDynamicTemplate t => Document_addDynamicTemplate t d
  | op_addInstance uid inst params args => Document_addInstance uid inst params args d
  | op_addLscInstance uid inst params args =>
      Document_addLscInstance uid inst params args d
  | op_addProcess inst => Document_addProcess inst d
  | op_removeProcess inst => removeProcess inst d
  | op_addQuery q => Document_addQuery q d
  | op_add_string s => Document_add_string s d
  | op_add_string_if_new s => (Document_add_string_if_new s d).1
  | op_clockGuardRecvBroadcast => clockGuardRecvBroadcast d
  | op_setSyncUsed s => setSyncUsed s d
  | op_setUrgentTransition => setUrgentTransition d
  | op_on_template i o => with_templates (alter (run_template_op o) i) d
  | op_on_dynamicTemplate i o => with_dynamicTemplates (alter (run_template_op o) i) d
  end.

Definition run_document_ops (ops : list document_op) (d : Document) : Document :=
  foldl run_document_op d ops.


(** *** Append-only containers *)

(** Two edges that agree on everything but the guard, the synchronisation
    and the assignment. *)
Definition edge_same_but_labels (e e' : edge_t) : Prop :=
  edge_nr e = edge_nr e'
  ∧ edge_control e = edge_control e'
  ∧ edge_actname e = edge_actname e'
  ∧ edge_src e = edge_src e'
  ∧ edge_srcb e = edge_srcb e'
  ∧ edge_dst e = edge_dst e'
  ∧ edge_dstb e = edge_dstb e'
  ∧ edge_select e = edge_select e'
  ∧ edge_prob e = edge_prob e'
  ∧ edge_selectValues e = edge_selectValues e'.

(** Every edge of [l] is still at its position in [l']: unchanged when it is
    not the last edge of [l], and unchanged but for its guard,
    synchronisation and assignment when it is. *)
Definition edges_kept (l l' : list edge_t) : Prop :=
  ∀ i e, l !! i = Some e →
    ∃ e', l' !! i = Some e' ∧ edge_same_but_labels e e'
          ∧ (S i < length l → e' = e).

(** The template [t'] is what became of the stored template [t]: every
    member that is not a container is unchanged, every deque of [t] is an
    initial segment of the same deque of [t'], and the edges are kept. *)
Definition template_extends (t t' : template_t) : Prop :=
  template_base t = template_base t'
  ∧ template_init t = template_init t'
  ∧ templateset t = templateset t'
  ∧ isTA t = isTA t'
  ∧ template_type t = template_type t'
  ∧ template_mode t = template_mode t'
  ∧ hasPrechart t = hasPrechart t'
  ∧ dynamic t = dynamic t'
  ∧ dynindex t = dynindex t'
  ∧ isDefined t = isDefined t'
  ∧ states t `prefix_of` states t'
  ∧ branchpoints t `prefix_of` branchpoints t'
  ∧ edges_kept (edges t) (edges t')
  ∧ dynamicEvals t `prefix_of` dynamicEvals t'
  ∧ template_instances t `prefix_of` template_instances t'
  ∧ messages t `prefix_of` messages t'
  ∧ updates t `prefix_of` updates t'
  ∧ conditions t `prefix_of` conditions t'.

(** Each template of [ts] is still at its position in [ts'], as
    [template_extends] describes. *)
Definition templates_extend (ts ts' : list template_t) : Prop :=
  ∀ i t, ts !! i = Some t → ∃ t', ts' !! i = Some t' ∧ template_extends t t'.

Definition document_extends (d d' : Document) : Prop :=
  templates_extend (templates d) (templates d')
  ∧ templates_extend (dynamicTemplates d) (dynamicTemplates d')
  ∧ document_instances d `prefix_of` document_instances d'
  ∧ lscInstances d `prefix_of` lscInstances d'
  ∧ processes d `prefix_of` processes d'
  ∧ queries d `prefix_of` queries d'
  ∧ strings d `prefix_of` strings d'.


Definition run_template_ops (ops : list template_op) (t : template_t) : template_t :=
  foldl (λ t o, run_template_op o t) t ops.

(** Every edge of every template of the document, static or dynamic,
    satisfies the edge invariant. *)
Definition document_edges_ok (d : Document) : Prop :=
  Forall (λ t, Forall edge_invariant (edges t)) (templates d)
  ∧ Forall (λ t, Forall edge_invariant (edges t)) (dynamicTemplates d).

(** A template enters the document without edges. *)
Definition adds_fresh_template (o : document_op) : Prop :=
  match o with
  | op_addTemplate t | op_addDynamicTemplate t => no_edges t
  | _ => True
  end.

(** *** Further members of the header *)

(** [int simregion_t::getLoc() const] is only declared in the header. *)
Variable simregion_getLoc : simregion_t → Z.

(** [compare_simregion::operator()] *)
Definition compare_simregion (x y : simregion_t) : bool :=
  (simregion_getLoc x <? simregion_getLoc y)%Z.

(** The [int] that [addDynamicEval] returns: the [size_t] difference
    [dynamicEvals.size() - 1] converted to the return type. *)
Definition addDynamicEval_result (e : expression_t) (t : template_t) : Z :=
  int_of_size_t (addDynamicEval e t).2.

(** A cut built by its constructor and calls of [add], one per simregion of
    [rs] in their order. *)
Definition cut_of (number : Z) (rs : list simregion_t) : cut_t :=
  foldl (λ c r, cut_add r c) (cut_ctor number) rs.

(** The calls of the members that [Document] defines inline (document.h,
    lines 605-625) and that write to the document. *)
Inductive inline_call : Type :=
| call_clockGuardRecvBroadcast
| call_setSyncUsed (s : Z)
| call_setUrgentTransition
| call_add_string (s : string)
| call_add_string_if_new (s : string).

Definition run_inline_call (d : Document) (c : inline_call) : Document :=
  match c with
  | call_clockGuardRecvBroadcast => clockGuardRecvBroadcast d
  | call_setSyncUsed s => setSyncUsed s d
  | call_setUrgentTransition => setUrgentTransition d
  | call_add_string s => Document_add_string s d
  | call_add_string_if_new s => (Document_add_string_if_new s d).1
  end.

Definition run_inline_calls (cs : list inline_call) (d : Document) : Document :=
  foldl run_inline_call d cs.

(** What a call does to the string table, if anything. *)
Definition call_string_op (c : inline_call) : option string_op :=
  match c with
  | call_add_string s => Some (AddString s)
  | call_add_string_if_new s => Some (AddStringIfNew s)
  | _ => None
  end.

(** The argument of a call of [setSyncUsed]. *)
Definition call_sync (c : inline_call) : option Z :=
  match c with
  | call_setSyncUsed s => Some s
  | _ => None
  end.

Definition is_setUrgentTransition (c : inline_call) : bool :=
  match c with
  | call_setUrgentTransition => true
  | _ => false
  end.

Definition is_clockGuardRecvBroadcast (c : inline_call) : bool :=
  match c with
  | call_clockGuardRecvBroadcast => true
  | _ => false
  end.

(** *** Writing the supported methods *)

(** Modelled from the spec: [Document::getSupportedMethods], which the header
    only declares; a document accessor, one of the "getters for ... supported
    methods". *)
Definition getSupportedMethods (d : Document) : SupportedMethods :=
  supportedMethods d.

(** Modelled from the spec: [Document::setSupportedMethods], which the header
    only declares with the signature
    [void setSupportedMethods(const SupportedMethods&)]: the writer through
    which the flags are "toggled"; it stores the flags it is given. *)
Definition setSupportedMethods (sm : SupportedMethods) (d : Document) : Document :=
  let '(mkDocument ur rb sy ts dt ins lsc ps qs ss _) := d in
  mkDocument ur rb sy ts dt ins lsc ps qs ss sm.

(** The constructs of a model as the checker meets them, and whether a
    construct violates the restrictions of a semantics.  The checker is not
    under src/. *)
Context {construct : Type}.
Variable violates_symbolic : construct → bool.
Variable violates_stochastic : construct → bool.
Variable violates_concrete : construct → bool.

(** Modelled from the spec: "default is all true, toggled false by constructs
    that violate a semantics' restrictions".  A construct clears the flag of
    each semantics whose restrictions it violates and leaves the other flags
    as they are. *)
Definition toggle (c : construct) (sm : SupportedMethods) : SupportedMethods :=
  {| symbolic := if violates_symbolic c then false else symbolic sm;
     stochastic := if violates_stochastic c then false else stochastic sm;
     concrete := if violates_concrete c then false else concrete sm |}.

(** Modelled from the spec: the checker meeting the construct [c] of the
    document [d]; it reads the flags, toggles them and writes them back. *)
Definition check_construct (c : construct) (d : Document) : Document :=
  setSupportedMethods (toggle c (getSupportedMethods d)) d.

(** The calls on a document between its construction and the reading of its
    flags: the inline members of the header and the checker's visits. *)
Inductive checked_call : Type :=
| call_inline (c : inline_call)
| call_construct (c : construct).

Definition run_checked_call (d : Document) (k : checked_call) : Document :=
  match k with
  | call_inline c => run_inline_call d c
  | call_construct c => check_construct c d
  end.

Definition run_checked_calls (ks : list checked_call) (d : Document) : Document :=
  foldl run_checked_call d ks.

(** ** Properties *)

(** *** Strings *)

Lemma string_app_cons (x : ascii) (a b : string) :
  String x a +:+ b = String x (a +:+ b).
Proof. reflexivity. Qed.

Lemma string_app_nil_l (a : string) : "" +:+ a = a.
Proof. reflexivity. Qed.

Lemma string_app_assoc (a b c : string) : (a +:+ b) +:+ c = a +:+ (b +:+ c).
Proof.
  induction a as [|x a IH]; [done|].
  rewrite !string_app_cons. by f_equal.
Qed.

Lemma string_app_nil_r (a : string) : a +:+ "" = a.
Proof.
  induction a as [|x a IH]; [done|].
  rewrite string_app_cons. by f_equal.
Qed.

Lemma string_length_app (a b : string) :
  String.length (a +:+ b) = String.length a + String.length b.
Proof.
  induction a as [|x a IH]; [done|].
  rewrite string_app_cons. simpl. by f_equal.
Qed.

Lemma substring_app_l (a b : string) :
  String.substring 0 (String.length a) (a +:+ b) = a.
Proof.
  induction a as [|x a IH].
  - rewrite string_app_nil_l. by destruct b.
  - rewrite string_app_cons. simpl. by f_equal.
Qed.

(** Taking [size() - 1] characters from the start drops the last one. *)
Lemma std_substr_drop_last (a : string) (c : ascii) :
  std_substr (a +:+ String c "") 0
    (size_minus_one (String.length (a +:+ String c ""))) = Some a.
Proof.
  unfold std_substr.
  rewrite string_length_app. simpl String.length.
  replace (String.length a + 1) with (S (String.length a)) by lia.
  simpl size_minus_one.
  destruct (decide (S (String.length a) < 0)) as [Hlt|_]; [lia|].
  f_equal.
  replace (N.to_nat (N.min (N.of_nat (String.length a))
                       (N.of_nat (S (String.length a) - 0))))
    with (String.length a) by lia.
  apply substring_app_l.
Qed.

(** *** Cuts *)

Lemma cut_toString_loop (rs : list simregion_t) (acc : string) :
  foldl (λ s r, s +:+ (simregion_toString r +:+ " ")) acc rs
  = acc +:+ String.concat "" ((λ r, simregion_toString r +:+ " ") <$> rs).
Proof.
  revert acc. induction rs as [|r rs IH]; intros acc; simpl.
  - by rewrite string_app_nil_r.
  - rewrite IH, string_app_assoc. f_equal.
    destruct rs as [|r' rs]; simpl; [by rewrite string_app_nil_r | done].
Qed.

Lemma concat_trailing_space (r : simregion_t) (rs : list simregion_t) :
  String.concat "" ((λ r, simregion_toString r +:+ " ") <$> (r :: rs))
  = String.concat " " (simregion_toString <$> (r :: rs)) +:+ " ".
Proof.
  revert r. induction rs as [|r' rs IH]; intros r.
  - done.
  - change (String.concat "" ((λ r, simregion_toString r +:+ " ") <$> r :: r' :: rs))
      with ((simregion_toString r +:+ " ") +:+ "" +:+
            String.concat "" ((λ r, simregion_toString r +:+ " ") <$> r' :: rs)).
    change (String.concat " " (simregion_toString <$> r :: r' :: rs))
      with (simregion_toString r +:+ " " +:+
            String.concat " " (simregion_toString <$> r' :: rs)).
    rewrite IH. simpl ("" +:+ _). by rewrite !string_app_assoc.
Qed.

(** C9: for a cut without simregions [toString] returns "CUT)", the trim
    having removed the opening parenthesis; for a cut with simregions it
    returns "CUT(", the simregion strings separated by single spaces, and
    ")". *)
Theorem cut_toString_spec :
  (∀ nr, cut_toString (mkCut nr []) = Some "CUT)")
  ∧ (∀ nr r rs,
       cut_toString (mkCut nr (r :: rs))
       = Some ("CUT(" +:+ String.concat " " (simregion_toString <$> (r :: rs))
               +:+ ")")).
Proof.
  split; [done|].
  intros nr r rs. unfold cut_toString. cbn [cut_simregions].
  rewrite cut_toString_loop, concat_trailing_space.
  rewrite <- string_app_assoc.
  change " " with (String " " "") at 3 4.
  rewrite std_substr_drop_last. simpl mbind.
  by rewrite string_app_assoc.
Qed.

(** *** Simregions *)

Lemma fresh_address {A : Type} (m : gmap nat A) : m !! fresh (dom m) = None.
Proof. apply not_elem_of_dom, is_fresh. Qed.

(** C5: the constructor of [simregion_t] allocates a message, a condition and
    an update whatever the simregion will hold: the three pointers are
    non-null, each points to a newly allocated default-constructed object
    whose [nr] is -1, the rest of the free store is untouched, and the
    destructor frees exactly these three objects. *)
Theorem simregion_ctor_allocates (h : heap_t) :
  ∃ m c u : nat,
    (simregion_ctor h).1 = mkSimregion 0 (Some m) (Some c) (Some u)
    ∧ simregion_message (simregion_ctor h).1 ≠ nullptr
    ∧ simregion_condition (simregion_ctor h).1 ≠ nullptr
    ∧ simregion_update (simregion_ctor h).1 ≠ nullptr
    ∧ heap_messages h !! m = None
    ∧ heap_conditions h !! c = None
    ∧ heap_updates h !! u = None
    ∧ heap_messages (simregion_ctor h).2 = <[m := message_default]> (heap_messages h)
    ∧ heap_conditions (simregion_ctor h).2 = <[c := condition_default]> (heap_conditions h)
    ∧ heap_updates (simregion_ctor h).2 = <[u := update_default]> (heap_updates h)
    ∧ message_get_nr message_default = (-1)%Z
    ∧ condition_get_nr condition_default = (-1)%Z
    ∧ update_get_nr update_default = (-1)%Z
    ∧ simregion_dtor (simregion_ctor h).1 (simregion_ctor h).2 = h.
Proof.
  exists (fresh (dom (heap_messages h))), (fresh (dom (heap_conditions h))),
    (fresh (dom (heap_updates h))).
  destruct h as [ms cs us]. cbn.
  split_and!; try done; try apply fresh_address.
  unfold simregion_dtor, delete_update, delete_condition, delete_message. cbn.
  f_equal; apply delete_insert_id, fresh_address.
Qed.

(** *** Edges *)

Lemma exactly_one_choice (b : bool) (a : nat) :
  exactly_one (if b then Some a else nullptr) (if b then nullptr else Some a).
Proof. destruct b; [left | right]; split; eauto. Qed.

Lemma edges_with_edges f (t : template_t) : edges (with_edges f t) = f (edges t).
Proof. by destruct t. Qed.

Lemma addEdge_edges src dst control actname (t : template_t) :
  ∃ e, edges (addEdge src dst control actname t) = edges t ++ [e]
       ∧ edge_invariant e ∧ edge_nr e = Z.of_nat (length (edges t)).
Proof.
  unfold addEdge. rewrite edges_with_edges. eexists. split; [done|].
  split; [|done]. split; apply exactly_one_choice.
Qed.

Lemma edges_with_last_edge f (t : template_t) :
  edges (with_last_edge f t) = alter f (length (edges t) - 1) (edges t).
Proof. unfold with_last_edge. by rewrite edges_with_edges. Qed.

Lemma set_edge_guard_same g (e : edge_t) :
  edge_same_but_labels e (set_edge_guard g e).
Proof. destruct e. unfold edge_same_but_labels. cbn. by split_and!. Qed.

Lemma set_edge_sync_same y (e : edge_t) :
  edge_same_but_labels e (set_edge_sync y e).
Proof. destruct e. unfold edge_same_but_labels. cbn. by split_and!. Qed.

Lemma set_edge_assign_same a (e : edge_t) :
  edge_same_but_labels e (set_edge_assign a e).
Proof. destruct e. unfold edge_same_but_labels. cbn. by split_and!. Qed.

Lemma edge_invariant_same (e e' : edge_t) :
  edge_same_but_labels e e' → edge_invariant e → edge_invariant e'.
Proof.
  unfold edge_same_but_labels, edge_invariant. intros Hsame He.
  destruct_and!. by repeat match goal with H : _ = _ |- _ => rewrite <- H end.
Qed.

Lemma run_template_op_edge_invariant (o : template_op) (t : template_t) :
  Forall edge_invariant (edges t) →
  Forall edge_invariant (edges (run_template_op o t)).
Proof.
  intros Ht. destruct o; cbn [run_template_op];
    try (by destruct t).
  - destruct (addEdge_edges src dst control actname t) as (e & -> & He & _).
    apply Forall_app. split; [done|]. by constructor.
  - unfold addGuard. rewrite edges_with_last_edge.
    apply Forall_alter; [done|]. intros e _.
    apply edge_invariant_same, set_edge_guard_same.
  - unfold addSync. rewrite edges_with_last_edge.
    apply Forall_alter; [done|]. intros e _.
    apply edge_invariant_same, set_edge_sync_same.
  - unfold addAssign. rewrite edges_with_last_edge.
    apply Forall_alter; [done|]. intros e _.
    apply edge_invariant_same, set_edge_assign_same.
Qed.

Lemma run_template_ops_edge_invariant (ops : list template_op) (t : template_t) :
  Forall edge_invariant (edges t) →
  Forall edge_invariant (edges (run_template_ops ops t)).
Proof.
  revert t. induction ops as [|o ops IH]; intros t Ht; [done|].
  by apply IH, run_template_op_edge_invariant.
Qed.

Lemma run_document_op_edges_ok (d : Document) (o : document_op) :
  document_edges_ok d → adds_fresh_template o →
  document_edges_ok (run_document_op d o).
Proof.
  unfold document_edges_ok.
  destruct o, d; cbn; intros [Hts Hds] Ho; split; try done.
  - apply Forall_app. split; [done|]. constructor; [|done]. by rewrite Ho.
  - apply Forall_app. split; [done|]. constructor; [|done]. by rewrite Ho.
  - apply Forall_alter; [done|]. intros t _. apply run_template_op_edge_invariant.
  - apply Forall_alter; [done|]. intros t _. apply run_template_op_edge_invariant.
Qed.

(** C4: in a document whose templates enter without edges, after any
    sequence of calls every edge of every template has exactly one of [src],
    [srcb] and exactly one of [dst], [dstb] set, the other pointer of each
    pair being [nullptr]. *)
Theorem edge_endpoints_exactly_one (ops : list document_op) (d : Document) :
  document_edges_ok d →
  Forall adds_fresh_template ops →
  document_edges_ok (run_document_ops ops d).
Proof.
  revert d. induction ops as [|o ops IH]; intros d Hd Hops; [done|].
  apply Forall_cons in Hops as [Ho Hops].
  apply IH; [|done]. by apply run_document_op_edges_ok.
Qed.

(** *** Instances *)

Lemma fst_zip_take {A B : Type} (l : list A) (k : list B) :
  (zip l k).*1 = take (length k) l.
Proof.
  revert k. induction l as [|x l IH]; intros [|y k]; simpl; [done..|].
  by rewrite IH.
Qed.

Lemma template_instance_wf uid params self :
  NoDup (frame_symbols params) → instance_wf (template_instance uid params self).
Proof.
  intros Hnd. split; [|done].
  unfold instance_invariant, unbound_parameters, bound_parameters.
  cbn. unfold frame_getSize. split_and!.
  - rewrite map_size_empty. lia.
  - intros s. rewrite firstn_all. split; [intros Hs; split; [done|apply lookup_empty] | by intros [? _]].
  - rewrite drop_all. by rewrite dom_empty_L.
Qed.

Lemma addInstance_dom uid inst params args :
  instance_wf inst →
  length args = unbound inst →
  dom (mapping (addInstance uid inst params args))
  = list_to_set (frame_symbols (parameters inst)).
Proof.
  intros [(Hsize & Hunb & Hdom) Hnd] Hargs. cbn.
  rewrite dom_union_L, dom_list_to_map_L, fst_zip_take, Hargs, Hdom.
  unfold bound_parameters.
  rewrite <- list_to_set_app_L. by rewrite take_drop.
Qed.

Lemma addInstance_wf uid inst params args :
  instance_wf inst →
  length args = unbound inst →
  NoDup (frame_symbols params) →
  (∀ s, s ∈ frame_symbols params → s ∉ frame_symbols (parameters inst)) →
  instance_wf (addInstance uid inst params args).
Proof.
  intros Hwf Hargs Hnd Hnew.
  pose proof (addInstance_dom uid inst params args Hwf Hargs) as Hdom.
  destruct Hwf as [_ Hnd'].
  split; [|cbn; apply NoDup_app; split_and!; done].
  unfold instance_invariant, unbound_parameters, bound_parameters, frame_getSize.
  split_and!.
  - rewrite <- size_dom, Hdom. cbn [parameters unbound addInstance frame_symbols].
    rewrite length_app, size_list_to_set by done. done.
  - intros s. cbn [parameters unbound addInstance frame_symbols].
    unfold frame_getSize. rewrite take_app_length.
    rewrite <- not_elem_of_dom, Hdom, elem_of_list_to_set, elem_of_app.
    split; [intros Hs; split; [by left | by apply Hnew] | by intros [[?|?] ?]].
  - rewrite Hdom. cbn [parameters unbound addInstance frame_symbols].
    unfold frame_getSize. by rewrite drop_app_length.
Qed.

Lemma instantiated_wf (i : instance_t) : instantiated i → instance_wf i.
Proof.
  induction 1 as [uid params self Hnd | uid inst params args _ IH Hargs Hnd Hnew].
  - by apply template_instance_wf.
  - by apply addInstance_wf.
Qed.

(** C3: every instance that the instantiation engine produces, from a
    template or by instantiating an instance again, has as many parameters
    as unbound ones plus entries of the mapping; its first [unbound]
    parameters are exactly those the mapping does not bind; and the keys of
    the mapping are exactly the parameters from position [unbound] on. *)
Theorem instantiated_invariant (i : instance_t) :
  instantiated i → instance_invariant i.
Proof. intros Hi. by destruct (instantiated_wf i Hi). Qed.

(** *** Frames *)

Lemma frame_lookup_local_Some (name : string) (f : frame_t) :
  is_Some (frame_lookup_local name f)
  ↔ ∃ s, s ∈ frame_symbols f ∧ symbol_getName s = name.
Proof.
  unfold frame_lookup_local. rewrite fmap_is_Some. split.
  - intros [[i s] Hfind]. apply list_find_Some in Hfind as (Hi & Hs & _).
    exists s. split; [by eapply list_elem_of_lookup_2 | done].
  - intros (s & Hin & Hs). by eapply list_find_elem_of.
Qed.

Lemma frame_lookup_local_None (name : string) (f : frame_t) :
  frame_lookup_local name f = None
  ↔ ∀ s, s ∈ frame_symbols f → symbol_getName s ≠ name.
Proof.
  rewrite eq_None_not_Some, frame_lookup_local_Some. split.
  - intros Hno s Hin Hs. apply Hno. eauto.
  - intros Hall (s & Hin & Hs). by eapply Hall.
Qed.

(** C7: adding a symbol to a frame fails exactly when a symbol of that name
    is already in the frame itself, and the failure is the
    [DuplicateDefinition] error for the name; when the name is new to the
    frame the symbol is appended, with the [ShadowsAVariable] warning for the
    name if an enclosing frame resolves it and with no warning otherwise. *)
Theorem frame_add_duplicate_iff (sym : symbol_t) (f : frame_t) :
  ((∃ e, frame_add sym f = inl e)
   ↔ ∃ s, s ∈ frame_symbols f ∧ symbol_getName s = symbol_getName sym)
  ∧ (∀ e, frame_add sym f = inl e
          → e = DuplicateDefinitionError (symbol_getName sym))
  ∧ ((∀ s, s ∈ frame_symbols f → symbol_getName s ≠ symbol_getName sym)
     → ∃ ws,
         frame_add sym f
         = inr (mkFrame (frame_symbols f ++ [sym]) (frame_parent f), ws)
         ∧ ((is_Some (frame_parent f ≫= frame_resolve (symbol_getName sym))
             ∧ ws = [ShadowsAVariableWarning (symbol_getName sym)])
            ∨ (frame_parent f ≫= frame_resolve (symbol_getName sym) = None
               ∧ ws = []))).
Proof.
  rewrite <- frame_lookup_local_Some, <- frame_lookup_local_None.
  unfold frame_add.
  destruct (frame_lookup_local (symbol_getName sym) f) as [s|] eqn:Hlocal.
  - split_and!.
    + split; eauto.
    + by intros e [= <-].
    + done.
  - destruct (frame_parent f ≫= frame_resolve (symbol_getName sym))
      as [s|] eqn:Houter.
    + split_and!.
      * split; [by intros [e ?] | by intros [? ?]].
      * by intros e ?.
      * intros _. eexists. split; [done|]. left. eauto.
    + split_and!.
      * split; [by intros [e ?] | by intros [? ?]].
      * by intros e ?.
      * intros _. eexists. split; [done|]. by right.
Qed.

(** *** Append-only containers *)























(** *** Supported methods *)

Lemma supportedMethods_set (sm : SupportedMethods) (d : Document) :
  supportedMethods (setSupportedMethods sm d) = sm.
Proof. by destruct d. Qed.

Lemma supportedMethods_inline (d : Document) (c : inline_call) :
  supportedMethods (run_inline_call d c) = supportedMethods d.
Proof. by destruct c, d. Qed.

(** A flag is false after the calls exactly when it was false before or a
    construct among the calls violates the restrictions it stands for. *)
Lemma flag_false_iff (flag : SupportedMethods → bool) (violates : construct → bool)
  (ks : list checked_call) (d : Document) :
  (∀ c sm, flag (toggle c sm) = if violates c then false else flag sm) →
  flag (supportedMethods (run_checked_calls ks d)) = false
  ↔ flag (supportedMethods d) = false
    ∨ ∃ c, call_construct c ∈ ks ∧ violates c = true.
Proof.
  intros Hflag. revert d. induction ks as [|k ks IH]; intros d.
  - cbn. split; [by left|]. intros [?|(c & []%elem_of_nil & _)]. done.
  - change (run_checked_calls (k :: ks) d)
      with (run_checked_calls ks (run_checked_call d k)).
    rewrite IH. setoid_rewrite elem_of_cons.
    destruct k as [c|c]; cbn [run_checked_call].
    + rewrite supportedMethods_inline. split.
      * intros [?|(c' & ? & ?)]; [by left | right; eauto].
      * intros [?|(c' & [?|?] & ?)]; [by left | done | right; eauto].
    + unfold check_construct, getSupportedMethods.
      rewrite supportedMethods_set, Hflag.
      destruct (violates c) eqn:Hc; split.
      * intros _. right. eauto.
      * by left.
      * intros [?|(c' & ? & ?)]; [by left | right; eauto].
      * intros [?|(c' & [[= ->]|?] & ?)]; [by left | congruence | right; eauto].
Qed.

(** C6: the three flags of [SupportedMethods] default to true and a newly
    constructed document holds these defaults; none of the inline members of
    [Document] that write to it changes a flag; and after any sequence of
    inline calls and visits of the checker, the flag of a semantics is false
    exactly when a construct that violates the restrictions of that
    semantics was met. *)
Theorem fresh_document_supports_all (urgent recvBroadcast : bool) (sync : Z) :
  symbolic SupportedMethods_default = true
  ∧ stochastic SupportedMethods_default = true
  ∧ concrete SupportedMethods_default = true
  ∧ supportedMethods (Document_ctor urgent recvBroadcast sync)
    = mkSupportedMethods true true true
  ∧ (∀ d : Document,
       supportedMethods (clockGuardRecvBroadcast d) = supportedMethods d
       ∧ supportedMethods (setUrgentTransition d) = supportedMethods d
       ∧ (∀ s, supportedMethods (setSyncUsed s d) = supportedMethods d)
       ∧ (∀ s, supportedMethods (Document_add_string s d) = supportedMethods d)
       ∧ (∀ s, supportedMethods (Document_add_string_if_new s d).1
               = supportedMethods d))
  ∧ (∀ ks : list checked_call,
       (symbolic (getSupportedMethods
                    (run_checked_calls ks (Document_ctor urgent recvBroadcast sync)))
        = false
        ↔ ∃ c, call_construct c ∈ ks ∧ violates_symbolic c = true)
       ∧ (stochastic (getSupportedMethods
                        (run_checked_calls ks (Document_ctor urgent recvBroadcast sync)))
          = false
          ↔ ∃ c, call_construct c ∈ ks ∧ violates_stochastic c = true)
       ∧ (concrete (getSupportedMethods
                      (run_checked_calls ks (Document_ctor urgent recvBroadcast sync)))
          = false
          ↔ ∃ c, call_construct c ∈ ks ∧ violates_concrete c = true)).
Proof.
  split_and!; try done.
  - intros d. split_and!; intros; by destruct d.
  - intros ks. unfold getSupportedMethods.
    split_and!.
    + rewrite (flag_false_iff symbolic violates_symbolic) by done.
      cbn. split; [by intros [?|?] | by right].
    + rewrite (flag_false_iff stochastic violates_stochastic) by done.
      cbn. split; [by intros [?|?] | by right].
    + rewrite (flag_false_iff concrete violates_concrete) by done.
      cbn. split; [by intros [?|?] | by right].
Qed.

(** *** The free store of simregions *)

Lemma fresh_insert_ne {A : Type} (m : gmap nat A) (x : A) :
  fresh (dom m) ≠ fresh (dom (<[fresh (dom m) := x]> m)).
Proof.
  intros Heq.
  apply (is_fresh (dom (<[fresh (dom m) := x]> m))).
  rewrite <- Heq, dom_insert_L. apply elem_of_union_l, elem_of_singleton. done.
Qed.

Lemma insert_fresh_keeps {A : Type} (m : gmap nat A) (x y : A) (a : nat) :
  m !! a = Some y → <[fresh (dom m) := x]> m !! a = Some y.
Proof.
  intros Ha. rewrite lookup_insert_ne; [done|].
  intros <-. by rewrite fresh_address in Ha.
Qed.

(** X1: two simregions constructed one after the other share no inner
    object: their message, condition and update pointers differ pairwise;
    the objects of the first are still in the free store after the second
    construction, and so is every object that was there before. *)
Theorem simregion_ctor_no_sharing (h : heap_t) :
  let s1 := (simregion_ctor h).1 in
  let h1 := (simregion_ctor h).2 in
  let s2 := (simregion_ctor h1).1 in
  let h2 := (simregion_ctor h1).2 in
  simregion_message s1 ≠ simregion_message s2
  ∧ simregion_condition s1 ≠ simregion_condition s2
  ∧ simregion_update s1 ≠ simregion_update s2
  ∧ (∀ a, simregion_message s1 = Some a →
          heap_messages h2 !! a = Some message_default)
  ∧ (∀ a, simregion_condition s1 = Some a →
          heap_conditions h2 !! a = Some condition_default)
  ∧ (∀ a, simregion_update s1 = Some a →
          heap_updates h2 !! a = Some update_default)
  ∧ (∀ a x, heap_messages h !! a = Some x → heap_messages h2 !! a = Some x)
  ∧ (∀ a x, heap_conditions h !! a = Some x → heap_conditions h2 !! a = Some x)
  ∧ (∀ a x, heap_updates h !! a = Some x → heap_updates h2 !! a = Some x).
Proof.
  destruct h as [ms cs us]. cbn. split_and!.
  - intros [= Heq]. by apply fresh_insert_ne in Heq.
  - intros [= Heq]. by apply fresh_insert_ne in Heq.
  - intros [= Heq]. by apply fresh_insert_ne in Heq.
  - intros a [= <-]. apply insert_fresh_keeps, lookup_insert_eq.
  - intros a [= <-]. apply insert_fresh_keeps, lookup_insert_eq.
  - intros a [= <-]. apply insert_fresh_keeps, lookup_insert_eq.
  - intros a x Ha. by do 2 apply insert_fresh_keeps.
  - intros a x Ha. by do 2 apply insert_fresh_keeps.
  - intros a x Ha. by do 2 apply insert_fresh_keeps.
Qed.

(** X2: [cut_t::add] stores a member-wise copy, so the simregion kept in the
    cut points to the same three inner objects as the argument; once the
    destructor of the argument has run, none of the three addresses holds an
    object any more while the stored copy still points to them. *)
Theorem cut_add_shares_inner_objects (h : heap_t) (c : cut_t) :
  let s := (simregion_ctor h).1 in
  let h' := (simregion_ctor h).2 in
  ∃ stored m cn u,
    last (cut_simregions (cut_add s c)) = Some stored
    ∧ simregion_message stored = Some m ∧ simregion_message s = Some m
    ∧ simregion_condition stored = Some cn ∧ simregion_condition s = Some cn
    ∧ simregion_update stored = Some u ∧ simregion_update s = Some u
    ∧ is_Some (heap_messages h' !! m)
    ∧ is_Some (heap_conditions h' !! cn)
    ∧ is_Some (heap_updates h' !! u)
    ∧ heap_messages (simregion_dtor s h') !! m = None
    ∧ heap_conditions (simregion_dtor s h') !! cn = None
    ∧ heap_updates (simregion_dtor s h') !! u = None.
Proof.
  destruct h as [ms cs us]. cbn.
  eexists _, _, _, _. split; [apply last_snoc|]. cbn.
  split_and!; try done; try (eexists; apply lookup_insert_eq);
    unfold simregion_dtor; cbn; apply lookup_delete_eq.
Qed.

(** *** Dynamic evaluations *)

Lemma dynamicEvals_with_dynamicEvals f (t : template_t) :
  dynamicEvals (with_dynamicEvals f t) = f (dynamicEvals t).
Proof. by destruct t. Qed.

Lemma int_of_size_t_small (z : Z) :
  (0 ≤ z < 2 ^ 31)%Z → int_of_size_t z = z.
Proof.
  intros Hz. unfold int_of_size_t. cbv zeta.
  rewrite Z.mod_small by lia.
  destruct (Z.ltb_spec z (2 ^ 31)); [done | lia].
Qed.

(** X3: as long as the template holds fewer than 2^31 dynamic evaluations,
    the [int] that [addDynamicEval] returns is the number of evaluations held
    before the call and the position at which the expression is now stored;
    every expression stored before is still at its position. *)
Theorem addDynamicEval_index (e : expression_t) (t : template_t) :
  (Z.of_nat (length (dynamicEvals t)) < 2 ^ 31)%Z →
  addDynamicEval_result e t = Z.of_nat (length (dynamicEvals t))
  ∧ getDynamicEval (addDynamicEval e t).1
      !! Z.to_nat (addDynamicEval_result e t) = Some e
  ∧ (∀ i x, getDynamicEval t !! i = Some x →
            getDynamicEval (addDynamicEval e t).1 !! i = Some x).
Proof.
  intros Hsize. unfold addDynamicEval_result, getDynamicEval, addDynamicEval.
  cbn [fst snd]. rewrite dynamicEvals_with_dynamicEvals, length_app.
  cbn [length].
  replace (Z.of_nat (length (dynamicEvals t) + 1) - 1)%Z
    with (Z.of_nat (length (dynamicEvals t))) by lia.
  rewrite int_of_size_t_small by lia.
  split_and!; [done | |].
  - rewrite Nat2Z.id, lookup_app_r, Nat.sub_diag by lia. done.
  - intros i x Hi. by apply lookup_app_l_Some.
Qed.

(** *** The inline members of the document *)

Lemma run_inline_calls_snoc (cs : list inline_call) (c : inline_call) (d : Document) :
  run_inline_calls (cs ++ [c]) d = run_inline_call (run_inline_calls cs d) c.
Proof. unfold run_inline_calls. apply foldl_snoc. Qed.

(** X4: the urgent-transition flag and the flag for a clock guard on a
    broadcast receiver are latches: after any sequence of inline calls a flag
    is set exactly when it was set before or its setter is among the calls;
    no inline member clears it. *)
Theorem flags_are_latches (cs : list inline_call) (d : Document) :
  hasUrgentTransition (run_inline_calls cs d)
  = hasUrgentTransition d || existsb is_setUrgentTransition cs
  ∧ hasClockGuardRecvBroadcast (run_inline_calls cs d)
    = hasClockGuardRecvBroadcast d || existsb is_clockGuardRecvBroadcast cs.
Proof.
  revert d. induction cs as [|c cs IH]; intros d.
  - cbn. by rewrite !orb_false_r.
  - destruct (IH (run_inline_call d c)) as [IHu IHb].
    change (run_inline_calls (c :: cs) d)
      with (run_inline_calls cs (run_inline_call d c)).
    rewrite IHu, IHb. cbn [existsb].
    destruct c, d; cbn; split;
      rewrite ?orb_true_r, ?orb_false_r; try done;
      by destruct (_ : bool).
Qed.

(** X5: after any sequence of inline calls [getSyncUsed] returns the argument
    of the last call of [setSyncUsed], and what it returned before when there
    was no such call. *)
Theorem getSyncUsed_last_set (cs : list inline_call) (d : Document) :
  getSyncUsed (run_inline_calls cs d)
  = default (getSyncUsed d) (last (omap call_sync cs)).
Proof.
  induction cs as [|c cs IH] using rev_ind; [done|].
  rewrite run_inline_calls_snoc, omap_app.
  destruct c; cbn [omap call_sync list_omap];
    rewrite ?app_nil_r, ?last_snoc; try rewrite <- IH;
    by destruct (run_inline_calls cs d).
Qed.

(** X6: the string table after any sequence of inline calls is the one that
    the calls of [add_string] and [add_string_if_new] among them produce, in
    their order; the other inline members leave the table alone. *)
Theorem inline_calls_strings (cs : list inline_call) (d : Document) :
  Document_get_strings (run_inline_calls cs d)
  = run_string_ops (omap call_string_op cs) (Document_get_strings d).
Proof.
  revert d. induction cs as [|c cs IH]; intros d; [done|].
  change (run_inline_calls (c :: cs) d)
    with (run_inline_calls cs (run_inline_call d c)).
  rewrite IH. by destruct c, d.
Qed.

(** *** The order of simregions *)

(** X7: [compare_simregion] is a strict weak ordering, as the standard
    sorting algorithms require of a comparator: it is irreflexive,
    asymmetric and transitive, and being unordered either way is
    transitive. *)
Theorem compare_simregion_strict_weak :
  (∀ x, compare_simregion x x = false)
  ∧ (∀ x y, compare_simregion x y = true → compare_simregion y x = false)
  ∧ (∀ x y z, compare_simregion x y = true → compare_simregion y z = true →
              compare_simregion x z = true)
  ∧ (∀ x y z,
       compare_simregion x y = false → compare_simregion y x = false →
       compare_simregion y z = false → compare_simregion z y = false →
       compare_simregion x z = false ∧ compare_simregion z x = false).
Proof.
  unfold compare_simregion. split_and!; intros *;
    rewrite ?Z.ltb_lt, ?Z.ltb_ge; lia.
Qed.

(** *** Cuts built by [add] *)

Lemma cut_add_fold (rs : list simregion_t) (c : cut_t) :
  foldl (λ c r, cut_add r c) c rs = mkCut (cut_nr c) (cut_simregions c ++ rs).
Proof.
  revert c. induction rs as [|r rs IH]; intros c; cbn.
  - rewrite app_nil_r. by destruct c.
  - rewrite IH. cbn. by rewrite <- app_assoc.
Qed.

Lemma cut_toString_cons (nr : Z) (r : simregion_t) (rs : list simregion_t) :
  cut_toString (mkCut nr (r :: rs))
  = Some ("CUT(" +:+ String.concat " " (simregion_toString <$> (r :: rs)) +:+ ")").
Proof.
  unfold cut_toString. cbn [cut_simregions].
  rewrite cut_toString_loop, concat_trailing_space.
  rewrite <- string_app_assoc.
  change " " with (String " " "") at 3 4.
  rewrite std_substr_drop_last. simpl mbind.
  by rewrite string_app_assoc.
Qed.

(** X8: a cut built by the constructor and one [add] per simregion keeps its
    number, holds the simregions in the order in which they were added, and
    prints them in that order. *)
Theorem cut_of_toString (number : Z) (r : simregion_t) (rs : list simregion_t) :
  cut_nr (cut_of number (r :: rs)) = number
  ∧ cut_simregions (cut_of number (r :: rs)) = r :: rs
  ∧ cut_toString (cut_of number (r :: rs))
    = Some ("CUT(" +:+ String.concat " " (simregion_toString <$> (r :: rs))
            +:+ ")").
Proof.
  unfold cut_of. rewrite cut_add_fold. cbn [cut_ctor cut_nr cut_simregions app].
  split_and!; [done..|]. apply cut_toString_cons.
Qed.

End IR.

(** *** The string table *)

Lemma std_find_Some (s : string) (table : list string) (i : nat) :
  std_find s table = Some i
  ↔ table !! i = Some s ∧ ∀ j, j < i → table !! j ≠ Some s.
Proof.
  unfold std_find. rewrite fmap_Some. split.
  - intros ([j x] & Hfind & ->). apply list_find_Some in Hfind as (Hj & -> & Hleast).
    split; [done|]. intros k Hk Hs. by eapply Hleast.
  - intros [Hi Hleast]. exists (i, s). split; [|done].
    apply list_find_Some. split_and!; [done..|].
    intros j y Hj Hlt ->. by eapply Hleast.
Qed.

Lemma std_find_None (s : string) (table : list string) :
  std_find s table = None ↔ s ∉ table.
Proof.
  unfold std_find. rewrite fmap_None, list_find_None, Forall_forall.
  split; [intros Hno Hin; by eapply Hno | by intros Hno x Hin ->].
Qed.

Lemma add_string_if_new_NoDup (s : string) (table : list string) :
  NoDup table → NoDup (add_string_if_new s table).1.
Proof.
  intros Hnd. unfold add_string_if_new.
  destruct (std_find s table) as [i|] eqn:Hfind; [done|].
  apply std_find_None in Hfind. cbn.
  apply NoDup_app. split_and!; [done | | apply NoDup_singleton].
  intros x Hx ->%list_elem_of_singleton. done.
Qed.

Lemma run_string_ops_NoDup (ops : list string_op) (table : list string) :
  forallb is_if_new ops = true → NoDup table → NoDup (run_string_ops ops table).
Proof.
  revert table. induction ops as [|[s|s] ops IH]; intros table Hops Hnd;
    [done | done |].
  apply IH; [done|]. by apply add_string_if_new_NoDup.
Qed.

(** C1: [add_string_if_new(s)] returns an index at which the table holds [s];
    when [s] is already there it is the index of its first occurrence and the
    table is unchanged, otherwise [s] is appended and the index is that of the
    new last entry; a table without equal entries has none after the call,
    hence none after any sequence of such calls. *)
Theorem add_string_if_new_dedup (s : string) (table : list string) :
  (add_string_if_new s table).1 !! (add_string_if_new s table).2 = Some s
  ∧ (s ∈ table →
     (add_string_if_new s table).1 = table
     ∧ ∀ j, j < (add_string_if_new s table).2 → table !! j ≠ Some s)
  ∧ (s ∉ table →
     (add_string_if_new s table).1 = table ++ [s]
     ∧ (add_string_if_new s table).2 = length table)
  ∧ (NoDup table → NoDup (add_string_if_new s table).1)
  ∧ (∀ ops, forallb is_if_new ops = true → NoDup table →
            NoDup (run_string_ops ops table)).
Proof.
  split_and!.
  - unfold add_string_if_new.
    destruct (std_find s table) as [i|] eqn:Hfind; cbn.
    + by apply std_find_Some in Hfind as [? _].
    + rewrite length_app. cbn.
      replace (length table + 1 - 1) with (length table + 0) by lia.
      by rewrite lookup_app_r, Nat.add_0_r, Nat.sub_diag by lia.
  - intros Hin. unfold add_string_if_new.
    destruct (std_find s table) as [i|] eqn:Hfind; cbn.
    + by apply std_find_Some in Hfind as [_ ?].
    + by apply std_find_None in Hfind.
  - intros Hnot. apply std_find_None in Hnot. unfold add_string_if_new.
    rewrite Hnot. cbn. rewrite length_app. cbn. split; [done | lia].
  - apply add_string_if_new_NoDup.
  - intros ops. apply run_string_ops_NoDup.
Qed.

(** [add_string] followed by [add_string] of the same text leaves two equal
    entries in the table of a new document. *)
Lemma add_string_equal_entries :
  ¬ ∀ ops : list string_op, NoDup (run_string_ops ops []).
Proof.
  intros Hall. specialize (Hall [AddString "a"; AddString "a"]).
  apply NoDup_cons in Hall as [Hnotin _]. apply Hnotin. by left.
Qed.

Lemma add_string_if_new_dedup_example :
  NoDup (run_string_ops
           [AddStringIfNew "a"; AddStringIfNew "b"; AddStringIfNew "a"] []).
Proof.
  apply (add_string_if_new_dedup "a" []); [reflexivity | apply NoDup_nil_2].
Defined.

(** *** The diagnostic factories *)

Lemma substring_whole (p : string) : String.substring 0 (String.length p) p = p.
Proof. induction p as [|c p IH]; [done|]. simpl. by f_equal. Qed.

Lemma substring_app_r (front p : string) :
  String.substring (String.length front) (String.length p) (front +:+ p) = p.
Proof.
  induction front as [|c front IH].
  - apply substring_whole.
  - rewrite string_app_cons. simpl. done.
Qed.

(** C2: the messages of the nine factories listed in [key_first_factories]
    begin with [$], those of [IsNotAStructError], [NotAProcessError] and
    [ShadowsAVariableWarning] begin with the positional parameter [%1%], a
    space and then the [$] key; all twelve contain [%1%]. *)
Theorem message_templates_keys (name : string) :
  Forall (λ f, begins_with "$" (what (f name)) ∧ occurs_in "%1%" (what (f name)))
    key_first_factories
  ∧ Forall (λ f, begins_with "%1% $" (what (f name))
                 ∧ occurs_in "%1%" (what (f name)))
      parameter_first_factories.
Proof.
  split; repeat apply Forall_cons_2; try apply Forall_nil_2;
    (split; [reflexivity|]).
  - by exists "$Unknown_identifier: ", name.
  - by exists "$has_no_member_named ", name.
  - by exists "$Duplicate_definition_of ", name.
  - by exists "$Invalid_type ", name.
  - by exists "$No_such_process: ", name.
  - by exists "$Not_a_template: ", name.
  - by exists "$strategy_not_declared: ", name.
  - by exists "$Could_not_load_library_named ", name.
  - by exists "$Could_not_load_function_named ", name.
  - by exists "", (" $is_not_a_structure" +:+ name).
  - by exists "", (" $is_not_a_process" +:+ name).
  - by exists "", (" $shadows_a_variable" +:+ name).
Qed.

(** The message of [IsNotAStructError] begins with [%], not with [$]. *)
Lemma not_every_message_begins_with_key :
  ¬ ∀ name : string, Forall (λ f, begins_with "$" (what (f name))) factories.
Proof.
  intros Hall. specialize (Hall "s").
  apply Forall_cons in Hall as [_ Hall].
  apply Forall_cons in Hall as [_ Hall].
  apply Forall_cons in Hall as [Hstruct _].
  discriminate Hstruct.
Qed.

(** C10: the message of each of the thirteen factories is a fixed text that
    contains [%1%], with the name appended after its last character and the
    placeholder left as it is; for the ten factories of
    [parameter_last_factories] the text ends with [%1%], so the name comes
    right after the placeholder, and for [IsNotAStructError],
    [NotAProcessError] and [ShadowsAVariableWarning] the text begins with
    [%1%] and the name comes after the key. *)
Theorem factories_append_name :
  (∀ n, what (UnknownIdentifierError n) = "$Unknown_identifier: %1%" +:+ n)
  ∧ Forall (λ f, ∃ template, occurs_in "%1%" template
                             ∧ ∀ name, what (f name) = template +:+ name)
      factories
  ∧ Forall (λ f, ∃ front, ∀ name, what (f name) = front +:+ "%1%" +:+ name)
      parameter_last_factories
  ∧ Forall (λ f, ∃ key, key ≠ "" ∧ ∀ name, what (f name) = "%1%" +:+ key +:+ name)
      parameter_first_factories.
Proof.
  split_and!; [done|..]; repeat apply Forall_cons_2; try apply Forall_nil_2.
  - exists "$Unknown_identifier: %1%". split; [by exists "$Unknown_identifier: ", ""|done].
  - exists "$has_no_member_named %1%". split; [by exists "$has_no_member_named ", ""|done].
  - exists "%1% $is_not_a_structure". split; [by exists "", " $is_not_a_structure"|done].
  - exists "$Duplicate_definition_of %1%".
    split; [by exists "$Duplicate_definition_of ", ""|done].
  - exists "$Invalid_type %1%". split; [by exists "$Invalid_type ", ""|done].
  - exists "$No_such_process: %1%". split; [by exists "$No_such_process: ", ""|done].
  - exists "$Not_a_template: %1%". split; [by exists "$Not_a_template: ", ""|done].
  - exists "%1% $is_not_a_process". split; [by exists "", " $is_not_a_process"|done].
  - exists "$strategy_not_declared: %1%".
    split; [by exists "$strategy_not_declared: ", ""|done].
  - exists "Unknown dynamic template %1%".
    split; [by exists "Unknown dynamic template ", ""|done].
  - exists "%1% $shadows_a_variable". split; [by exists "", " $shadows_a_variable"|done].
  - exists "$Could_not_load_library_named %1%".
    split; [by exists "$Could_not_load_library_named ", ""|done].
  - exists "$Could_not_load_function_named %1%".
    split; [by exists "$Could_not_load_function_named ", ""|done].
  - by exists "$Unknown_identifier: ".
  - by exists "$has_no_member_named ".
  - by exists "$Duplicate_definition_of ".
  - by exists "$Invalid_type ".
  - by exists "$No_such_process: ".
  - by exists "$Not_a_template: ".
  - by exists "$strategy_not_declared: ".
  - by exists "Unknown dynamic template ".
  - by exists "$Could_not_load_library_named ".
  - by exists "$Could_not_load_function_named ".
  - by exists " $is_not_a_structure".
  - by exists " $is_not_a_process".
  - by exists " $shadows_a_variable".
Qed.

(** In the message of [IsNotAStructError] the name follows the key, not the
    placeholder. *)
Lemma name_not_always_after_placeholder :
  ¬ ∀ name : string,
      Forall (λ f, ends_with_then "%1%" name (what (f name))) factories.
Proof.
  intros Hall. specialize (Hall "x").
  apply Forall_cons in Hall as [_ Hall].
  apply Forall_cons in Hall as [_ Hall].
  apply Forall_cons in Hall as [[front Hfront] _].
  assert (String.length front = 20) as Hfl.
  { pose proof (f_equal String.length Hfront) as Hlen.
    rewrite string_length_app in Hlen.
    change (String.length (what (IsNotAStructError "x"))) with 24 in Hlen.
    change (String.length ("%1%" +:+ "x")) with 4 in Hlen. lia. }
  pose proof (substring_app_r front ("%1%" +:+ "x")) as Hsub.
  rewrite <- Hfront, Hfl in Hsub. vm_compute in Hsub. discriminate Hsub.
Qed.

(** ** Worked instances

    Symbols are natural numbers or their names, expressions are natural
    numbers. *)

(** A template [T(1, 2)], the partial instance [P(4) = T(10, 11)] and the
    process [Q = P(12)]. *)
Lemma instantiated_invariant_example :
  instance_invariant
    (addInstance 5
       (addInstance 3 (template_instance 0 (mkFrame [1; 2] None) (Some 0))
          (mkFrame [4] None) [10; 11])
       frame_empty [12]).
Proof.
  apply (@instantiated_invariant nat _ _ nat).
  apply instantiated_instance.
  - apply instantiated_instance.
    + apply instantiated_template. cbn. apply NoDup_cons.
      split; [by intros ?%list_elem_of_singleton | apply NoDup_singleton].
    + reflexivity.
    + cbn. apply NoDup_singleton.
    + cbn. intros s ->%list_elem_of_singleton.
      rewrite !elem_of_cons, elem_of_nil. by intros [?|[?|[]]].
  - reflexivity.
  - apply NoDup_nil_2.
  - cbn. by intros s ?%elem_of_nil.
Defined.

(** Two templates without edges are added, then locations, a branchpoint and
    edges between them; symbols with an even number are locations. *)
Lemma edge_endpoints_exactly_one_example :
  document_edges_ok
    (run_document_ops 0 Nat.even id
       [ op_addTemplate
           (mkTemplate (template_instance 0 frame_empty (Some 0)) 2 frame_empty
              [] [] [] [] true [] [] [] [] "" "" false false 0%Z false);
         op_on_template 0 (op_addLocation (mkState 2 0 0 0 0 0%Z));
         op_on_template 0 (op_addLocation (mkState 4 0 0 0 0 1%Z));
         op_on_template 0 (op_addBranchpoint (mkBranchpoint 3 0%Z));
         op_on_template 0 (op_addEdge 2 3 true "a");
         op_on_template 0 (op_addEdge 3 4 false "") ]
       (Document_ctor false false 0%Z)).
Proof.
  apply (@edge_endpoints_exactly_one nat _ _ nat).
  - split; apply Forall_nil_2.
  - repeat apply Forall_cons_2; try apply Forall_nil_2; try exact I.
    reflexivity.
Defined.

(** The frame holds [x] and [y] and is nested in a frame that holds [z]:
    adding another [x] fails. *)
Lemma frame_add_duplicate_example :
  ∃ e, frame_add id "x" (mkFrame ["x"; "y"] (Some (mkFrame ["z"] None))) = inl e.
Proof.
  apply (frame_add_duplicate_iff id "x"
           (mkFrame ["x"; "y"] (Some (mkFrame ["z"] None)))).
  exists "x". split; [apply list_elem_of_here | reflexivity].
Defined.


(** *** Stored elements that change or move *)

Lemma vector_push_back_elems {A : Type} grow alloc (x : A) (v : vector_t A) :
  vector_elems (vector_push_back grow alloc x v) = vector_elems v ++ [x].
Proof. unfold vector_push_back. by case_decide. Qed.

Lemma vector_push_back_in_place {A : Type} grow alloc (x : A) (v : vector_t A)
  (i : nat) :
  length (vector_elems v) < vector_capacity v →
  vector_address (vector_push_back grow alloc x v) i = vector_address v i.
Proof. intros Hroom. unfold vector_push_back. by rewrite decide_True. Qed.





(** The code on small inputs. *)

Example add_string_if_new_present :
  add_string_if_new "b" ["a"; "b"; "c"; "b"] = (["a"; "b"; "c"; "b"], 1).
Proof. reflexivity. Qed.

Example add_string_if_new_absent :
  add_string_if_new "d" ["a"; "b"; "c"] = (["a"; "b"; "c"; "d"], 3).
Proof. reflexivity. Qed.

Example add_string_twice :
  run_string_ops [AddString "a"; AddString "a"] [] = ["a"; "a"].
Proof. reflexivity. Qed.

Example IsNotAStructError_x :
  what (IsNotAStructError "x") = "%1% $is_not_a_structurex".
Proof. reflexivity. Qed.

Example UnknownIdentifierError_x :
  what (UnknownIdentifierError "x") = "$Unknown_identifier: %1%x".
Proof. reflexivity. Qed.

Example UnknownDynamicTemplateError_x :
  what (UnknownDynamicTemplateError "x") = "Unknown dynamic template %1%x".
Proof. reflexivity. Qed.

Example cut_toString_empty :
  cut_toString (λ _, "S") (cut_ctor 0%Z) = Some "CUT)".
Proof. reflexivity. Qed.

Example cut_toString_two :
  cut_toString (λ r, if decide (simregion_nr r = 1%Z) then "m1" else "m2")
    (cut_add (mkSimregion 2 None None None)
       (cut_add (mkSimregion 1 None None None) (cut_ctor 0%Z)))
  = Some "CUT(m1 m2)".
Proof. reflexivity. Qed.

Example frame_add_shadowing :
  frame_add id "z" (mkFrame ["x"; "y"] (Some (mkFrame ["z"] None)))
  = inr (mkFrame ["x"; "y"; "z"] (Some (mkFrame ["z"] None)),
         [ShadowsAVariableWarning "z"]).
Proof. reflexivity. Qed.

Example removeProcess_deletes :
  processes
    (removeProcess (template_instance 7 frame_empty None)
       (run_document_ops 0 Nat.even id
          [ op_addProcess (template_instance 6 frame_empty None);
            op_addProcess (template_instance 7 frame_empty None) ]
          (Document_ctor false false 0%Z)))
  = [template_instance 6 frame_empty None].
Proof. reflexivity. Qed.

(** ** Further properties of the string table *)

Lemma run_string_op_prefix (op : string_op) (table : list string) :
  table `prefix_of` run_string_op table op.
Proof.
  destruct op as [s|s]; cbn.
  - by apply prefix_app_r.
  - unfold add_string_if_new. destruct (std_find s table); cbn;
      [done | by apply prefix_app_r].
Qed.

Lemma run_string_ops_prefix (ops : list string_op) (table : list string) :
  table `prefix_of` run_string_ops ops table.
Proof.
  revert table. induction ops as [|op ops IH]; intros table; [done|].
  etrans; [apply (run_string_op_prefix op)|]. apply IH.
Qed.

Lemma std_find_app_l (s : string) (table more : list string) (i : nat) :
  std_find s table = Some i → std_find s (table ++ more) = Some i.
Proof.
  unfold std_find. rewrite !fmap_Some.
  intros ([j x] & Hfind & ->). exists (j, x).
  split; [by apply list_find_app_l | done].
Qed.

Lemma add_string_if_new_found (s : string) (table : list string) (i : nat) :
  std_find s table = Some i → add_string_if_new s table = (table, i).
Proof. intros Hfind. unfold add_string_if_new. by rewrite Hfind. Qed.

Lemma std_find_after_add (s : string) (table : list string) :
  std_find s (add_string_if_new s table).1 = Some (add_string_if_new s table).2.
Proof.
  unfold add_string_if_new.
  destruct (std_find s table) as [i|] eqn:Hfind; cbn; [done|].
  apply std_find_None in Hfind.
  rewrite length_app. cbn.
  replace (length table + 1 - 1) with (length table) by lia.
  apply std_find_Some. split.
  - by rewrite lookup_app_r, Nat.sub_diag by lia.
  - intros j Hj Hs. rewrite lookup_app_l in Hs by done.
    apply Hfind. by eapply list_elem_of_lookup_2.
Qed.

Lemma add_string_if_new_lookup (s : string) (table : list string) :
  (add_string_if_new s table).1 !! (add_string_if_new s table).2 = Some s.
Proof.
  pose proof (std_find_after_add s table) as Hfind.
  by apply std_find_Some in Hfind as [? _].
Qed.

(** X9: the index that [add_string_if_new] returned for a string stays its
    index: whatever [add_string] and [add_string_if_new] calls follow, asking
    for the same string again returns the same index and leaves the table as
    it is. *)
Theorem add_string_if_new_stable (s : string) (table : list string)
  (ops : list string_op) :
  add_string_if_new s (run_string_ops ops (add_string_if_new s table).1)
  = (run_string_ops ops (add_string_if_new s table).1,
     (add_string_if_new s table).2).
Proof.
  apply add_string_if_new_found.
  destruct (run_string_ops_prefix ops (add_string_if_new s table).1)
    as [more ->].
  apply std_find_app_l, std_find_after_add.
Qed.

(** X10: indices identify strings: a later call of [add_string_if_new],
    whatever calls lie in between, returns the index of an earlier call
    exactly when it is given the same string. *)
Theorem add_string_if_new_index_identifies (s s' : string)
  (table : list string) (ops : list string_op) :
  (add_string_if_new s' (run_string_ops ops (add_string_if_new s table).1)).2
  = (add_string_if_new s table).2
  ↔ s' = s.
Proof.
  split.
  - intros Hidx.
    pose proof (add_string_if_new_lookup s'
                  (run_string_ops ops (add_string_if_new s table).1)) as Hlater.
    rewrite Hidx in Hlater.
    pose proof (add_string_if_new_lookup s table) as Hfirst.
    eapply prefix_lookup_Some in Hfirst;
      [|apply (run_string_ops_prefix ops)].
    eapply prefix_lookup_Some in Hfirst;
      [|apply (run_string_op_prefix (AddStringIfNew s'))].
    cbn in Hfirst. congruence.
  - intros ->.
    destruct (run_string_ops_prefix ops (add_string_if_new s table).1)
      as [more ->].
    erewrite add_string_if_new_found; [done|].
    apply std_find_app_l, std_find_after_add.
Qed.

Lemma run_string_op_elem_of (x : string) (op : string_op) (table : list string) :
  x ∈ run_string_op table op ↔ x ∈ table ∨ x = op_string op.
Proof.
  destruct op as [s|s]; cbn.
  - unfold add_string. rewrite elem_of_app, list_elem_of_singleton. done.
  - unfold add_string_if_new.
    destruct (std_find s table) as [i|] eqn:Hfind; cbn.
    + apply std_find_Some in Hfind as [Hi _].
      apply list_elem_of_lookup_2 in Hi. split; [by left|].
      by intros [?| ->].
    + rewrite elem_of_app, list_elem_of_singleton. done.
Qed.

(** X11: the table neither loses nor invents strings: after any sequence of
    calls it holds exactly the strings it held before and the strings the
    calls were given. *)
Theorem run_string_ops_elem_of (x : string) (ops : list string_op)
  (table : list string) :
  x ∈ run_string_ops ops table ↔ x ∈ table ∨ x ∈ op_string <$> ops.
Proof.
  revert table. induction ops as [|op ops IH]; intros table.
  - cbn. rewrite elem_of_nil. tauto.
  - change (run_string_ops (op :: ops) table)
      with (run_string_ops ops (run_string_op table op)).
    rewrite IH, run_string_op_elem_of, fmap_cons, elem_of_cons. tauto.
Qed.

Lemma add_string_if_new_decide (s : string) (table : list string) :
  (add_string_if_new s table).1
  = if decide (s ∈ table) then table else table ++ [s].
Proof.
  unfold add_string_if_new.
  destruct (std_find s table) as [i|] eqn:Hfind; cbn.
  - apply std_find_Some in Hfind as [Hi _].
    apply list_elem_of_lookup_2 in Hi. by rewrite decide_True.
  - apply std_find_None in Hfind. by rewrite decide_False.
Qed.

Lemma elem_of_first_occurrences (x : string) (ss : list string) :
  x ∈ first_occurrences ss ↔ x ∈ ss.
Proof.
  unfold first_occurrences.
  by rewrite elem_of_reverse, elem_of_remove_dups, elem_of_reverse.
Qed.

(** X12: starting from the empty table of a new document, a sequence of
    [add_string_if_new] calls leaves the table with the strings it was given
    in the order of their first occurrence, each one once. *)
Theorem add_string_if_new_first_occurrences (ss : list string) :
  run_string_ops (AddStringIfNew <$> ss) [] = first_occurrences ss.
Proof.
  induction ss as [|s ss IH] using rev_ind; [done|].
  unfold run_string_ops in *. rewrite fmap_app, foldl_app, IH.
  change (foldl run_string_op (first_occurrences ss) (AddStringIfNew <$> [s]))
    with (add_string_if_new s (first_occurrences ss)).1.
  rewrite add_string_if_new_decide.
  change (first_occurrences (ss ++ [s]))
    with (reverse (remove_dups (reverse (ss ++ [s])))).
  rewrite reverse_snoc. cbn [remove_dups]. unfold decide_rel.
  destruct (decide (s ∈ first_occurrences ss)) as [Hin|Hnot];
    destruct (list_elem_of_dec s (reverse ss)) as [Hin'|Hnot'].
  - done.
  - destruct Hnot'. by rewrite elem_of_reverse, <- elem_of_first_occurrences.
  - destruct Hnot. by rewrite elem_of_first_occurrences, <- elem_of_reverse.
  - by rewrite reverse_cons.
Qed.

(** ** Further properties of the diagnostic factories *)

Ltac split_index i H :=
  destruct i as [|i]; cbn in H;
  [ injection H as <- | first [ discriminate H | split_index i H ] ].

(** X13: a message tells which factory built it and from which name: two
    factories of the file never build the same message, whatever names they
    are given, and one factory builds different messages from different
    names. *)
Theorem message_identifies_factory (i j : nat) (name name' msg : string) :
  made_by i name msg → made_by j name' msg → i = j ∧ name = name'.
Proof.
  intros (f & Hf & <-) (g & Hg & Heq).
  split_index i Hf; split_index j Hg;
    vm_compute in Heq;
    first [ discriminate Heq | split; [reflexivity | congruence] ].
Qed.

(** ** Further worked instances *)

(** A template that holds two dynamic evaluations gets a third one. *)
Lemma addDynamicEval_index_example :
  addDynamicEval_result 9
    (mkTemplate (template_instance 0 frame_empty (Some 0)) 0 frame_empty
       [] [] [] [7; 8] true [] [] [] [] "" "" false true 0%Z false)
  = 2%Z.
Proof.
  apply (@addDynamicEval_index nat _ _ nat 9
           (mkTemplate (template_instance 0 frame_empty (Some 0)) 0 frame_empty
              [] [] [] [7; 8] true [] [] [] [] "" "" false true 0%Z false)).
  reflexivity.
Defined.

(** The message of [IsNotAStructError] for [x] read back. *)
Lemma message_identifies_factory_example :
  made_by 2 "x" "%1% $is_not_a_structurex" ∧ 2 = 2 ∧ "x" = "x".
Proof.
  assert (made_by 2 "x" "%1% $is_not_a_structurex") as Hmade.
  { exists IsNotAStructError. split; reflexivity. }
  split; [exact Hmade|].
  exact (message_identifies_factory 2 2 "x" "x" "%1% $is_not_a_structurex"
           Hmade Hmade).
Defined.

Example first_occurrences_abab :
  run_string_ops (AddStringIfNew <$> ["b"; "a"; "b"; "c"; "a"]) [] = ["b"; "a"; "c"].
Proof. reflexivity. Qed.

Example int_of_size_t_wraps :
  int_of_size_t (2 ^ 31) = (- 2 ^ 31)%Z ∧ int_of_size_t (2 ^ 32 + 5) = 5%Z.
Proof. split; reflexivity. Qed.

Example inline_calls_mixed :
  let d := run_inline_calls
             [ call_add_string_if_new "a"; call_setSyncUsed 1; call_add_string "a";
               call_setUrgentTransition; call_setSyncUsed 2;
               call_add_string_if_new "a" ]
             (@Document_ctor nat _ _ nat false false 0%Z) in
  Document_get_strings d = ["a"; "a"] ∧ getSyncUsed d = 2%Z
  ∧ hasUrgentTransition d = true ∧ hasClockGuardRecvBroadcast d = false.
Proof. repeat split; reflexivity. Qed.

Example addGuard_writes_last_edge :
  edge_guard <$>
    edges (run_template_ops 0 Nat.even id
             [ op_addEdge 2 4 true "a"; op_addGuard 5;
               op_addEdge 4 2 true "b"; op_addGuard 6; op_addGuard 7 ]
             (mkTemplate (template_instance 0 frame_empty (Some 0)) 2 frame_empty
                [] [] [] [] true [] [] [] [] "" "" false false 0%Z false))
  = [5; 7].
Proof. reflexivity. Qed.

Example template_extends_rejects_overwrite :
  ¬ template_extends
      (mkTemplate (@template_instance nat _ _ nat 0 frame_empty (Some 0)) 2
         frame_empty [] [] [] [] true [] [] [] [] "" "" false false 0%Z false)
      (mkTemplate (@template_instance nat _ _ nat 0 frame_empty (Some 0)) 2
         frame_empty [] [] [] [] false [] [] [] [] "" "" false false 0%Z false).
Proof. unfold template_extends. cbn. intros Hext. by destruct_and!. Qed.

Example document_extends_rejects_deletion :
  ¬ document_extends
      (Document_add_string "a" (@Document_ctor nat _ _ nat false false 0%Z))
      (@Document_ctor nat _ _ nat false false 0%Z).
Proof.
  unfold document_extends. cbn. intros Hext. destruct_and!.
  by eapply prefix_nil_not.
Qed.

Example vector_push_back_twice :
  vector_push_back doubling alloc_behind "b"
    (vector_push_back doubling alloc_behind "a" (mkVector 0 0 []))
  = mkVector 1 2 ["a"; "b"].
Proof. reflexivity. Qed.

(** Even-numbered constructs violate the restrictions of the symbolic
    semantics, constructs above 10 those of the stochastic semantics, none
    those of the concrete semantics. *)
Example supported_methods_after_checking :
  getSupportedMethods
    (run_checked_calls Nat.even (λ c, bool_decide (10 < c)) (λ _, false)
       [ call_construct 1; call_inline (call_add_string "a");
         call_construct 4; call_inline call_setUrgentTransition;
         call_construct 3 ]
       (@Document_ctor nat _ _ nat false false 0%Z))
  = mkSupportedMethods false true true.
Proof. reflexivity. Qed.
